(** * Solana smart-contract auditor workflow: a shallow embedding

    The embedded program is the Mastra workflow of the auditor agent
    ([staticAnalysis], [dynamicAnalysis], [autoFix], the [auditInput]
    schema, the chain [auditorWorkflow]) and the helper
    [validateSolanaProgram].

    - A JavaScript string is its sequence of UTF-16 code units, a
      [list N].  [String.prototype.includes], [toLowerCase], template
      literals and the regular expressions of the source act on code
      units, and so do the definitions below.
    - The agent is an oracle: a function from the messages it is sent to
      the completion of [agent.stream] and to the text stream it yields.
    - [try]/[catch], [await] and [for await] are written in a small
      completion monad.
    - Console output ([process.stdout.write], [console.error]) is not
      part of any returned value and is left out.
    - Two things the program relies on are not among its sources: the
      Unicode tables behind [toLowerCase], a parameter ([UnicodeLower]),
      and the runner of the workflow framework, written out in
      [auditorWorkflow] as the specification describes it. *)

From Stdlib Require Import List NArith Bool String Ascii Lia.
Import ListNotations.

Local Open Scope N_scope.
Local Open Scope list_scope.

(** ** Strings *)

Definition JSString := list N.

(** A source literal (ASCII only) as code units. *)
Definition lit (s : string) : JSString :=
  map N_of_ascii (list_ascii_of_string s).

(** [s.length] *)
Definition jsLength (s : JSString) : N := N.of_nat (List.length s).

(** [s.startsWith(kw)], the test [includes] makes at each index. *)
Fixpoint startsWith (s kw : JSString) {struct kw} : bool :=
  match kw, s with
  | [], _ => true
  | _ :: _, [] => false
  | k :: kw', c :: s' => (c =? k) && startsWith s' kw'
  end.

(** [s.includes(kw)]: [kw] occurs at some index of [s]. *)
Fixpoint includes (s kw : JSString) : bool :=
  startsWith s kw ||
  match s with
  | [] => false
  | _ :: s' => includes s' kw
  end.

(** [occursIn kw s]: [kw] is a substring of [s], verbatim. *)
Definition occursIn (kw s : JSString) : Prop :=
  exists a b, s = a ++ kw ++ b.

(** *** Lower case

    [toLowerCase] follows the locale-insensitive Unicode mapping.  On a
    code unit below 128 that is the ASCII mapping: A-Z go to a-z, the rest
    stays.  Two code units above 127 have a lower case with an ASCII
    letter in it: U+0130 (dotted capital I) gives "i" followed by U+0307,
    and U+212A (Kelvin sign) gives "k".  The mapping of every other code
    unit, which may look at the units around it (surrogate pairs, final
    sigma), is the parameter [lowerNonAscii] of the development. *)

Definition asciiLower (c : N) : N :=
  if (65 <=? c) && (c <=? 90) then c + 32 else c.

Definition UnicodeLower := JSString -> N -> JSString -> JSString.

Definition lowerUnit (lowerNonAscii : UnicodeLower)
    (before : JSString) (c : N) (after : JSString) : JSString :=
  if c <? 128 then [asciiLower c]
  else if c =? 0x130 then [0x69; 0x307]
  else if c =? 0x212A then [0x6B]
  else lowerNonAscii before c after.

Fixpoint lowerFrom (lowerNonAscii : UnicodeLower)
    (before s : JSString) : JSString :=
  match s with
  | [] => []
  | c :: after =>
      lowerUnit lowerNonAscii before c after
        ++ lowerFrom lowerNonAscii (before ++ [c]) after
  end.

(** [s.toLowerCase()] *)
Definition toLowerCase (lowerNonAscii : UnicodeLower) (s : JSString) : JSString :=
  lowerFrom lowerNonAscii [] s.

(** What the Unicode tables guarantee of the parameter: a code unit above
    127 other than U+0130 and U+212A has a lower case that is not empty
    and has no ASCII unit in it. *)
Definition keepsNonAscii (lowerNonAscii : UnicodeLower) : Prop :=
  forall before c after,
    128 <= c -> c <> 0x130 -> c <> 0x212A ->
    lowerNonAscii before c after <> [] /\
    Forall (fun x => 128 <= x) (lowerNonAscii before c after).

(** The mapping that leaves every unit above 127 as it is. *)
Definition lowerAsciiOnly : UnicodeLower := fun _ c _ => [c].

(** ** Completions: [try]/[catch], [await], [for await] *)

(** The value a failing model call throws: an [Error] with its [message]. *)
Record JSError := { message : JSString }.

Inductive Completion (A : Type) : Type :=
| Normal (a : A)
| Throw (e : JSError).
Arguments Normal {A} a.
Arguments Throw {A} e.

Definition bind {A B} (c : Completion A) (k : A -> Completion B) : Completion B :=
  match c with
  | Normal a => k a
  | Throw e => Throw e
  end.

Definition tryCatch {A} (body : Completion A) (handler : JSError -> Completion A)
  : Completion A :=
  match body with
  | Normal a => Normal a
  | Throw e => handler e
  end.

Notation "x <- c ;; k" := (bind c (fun x => k))
  (at level 61, c at next level, right associativity).

(** ** The agent *)

Record Message := { role : JSString; content : JSString }.

(** [resp.textStream]: the fragments the stream yields, and the error it
    ends with when it does not end normally. *)
Record TextStream := { fragments : list JSString; failure : option JSError }.

(** [agent.stream(messages)], awaited: a response, or a thrown error. *)
Definition Agent := list Message -> Completion TextStream.

(** [for await (const chunk of stream) acc = body(acc, chunk)] *)
Definition forAwait {S} (stream : TextStream) (body : S -> JSString -> S) (init : S)
  : Completion S :=
  let acc := fold_left body (fragments stream) init in
  match failure stream with
  | None => Normal acc
  | Some e => Throw e
  end.

(** The model invocation every stage makes: one user message, the
    fragments of the answer appended in order. *)
Definition invoke (agent : Agent) (prompt : JSString) : Completion JSString :=
  resp <- agent [{| role := lit "user"; content := prompt |}] ;;
  forAwait resp (fun text chunk => text ++ chunk) [].

(** ** Data model *)

Inductive Severity := Low | Medium | High | Critical.

Record AuditRequest := {
  code : JSString;
  programId : option JSString;
  fileName : option JSString;
  testCases : option (list JSString)
}.

Record StageAResult := {
  issues : JSString;
  severity : Severity;
  issueCount : N
}.

Record TestResult := {
  testCase : JSString;
  passed : bool;
  details : JSString
}.

Record StageBInput := {
  codeB : JSString;
  issuesB : JSString;
  severityB : Severity;
  issueCountB : N;
  testCasesB : option (list JSString)
}.

Record StageBResult := {
  simulationReport : JSString;
  testResults : list TestResult
}.

Record StageCInput := {
  codeC : JSString;
  issuesC : JSString;
  simulationReportC : JSString;
  testResultsC : list TestResult
}.

Record StageCResult := {
  fixedCode : JSString;
  changesSummary : JSString;
  confidence : N
}.

(** [x || d] on an optional string: [undefined] and the empty string are
    falsy. *)
Definition orDefault (x : option JSString) (d : JSString) : JSString :=
  match x with
  | None => d
  | Some [] => d
  | Some (c :: s) => c :: s
  end.

(** ** Regular expressions

    The fragment of the JavaScript pattern language the source uses, with
    its backtracking semantics: alternatives are tried left to right, a
    greedy star takes as many units as it can and gives them back one at a
    time, a lazy star takes as few as it can.  Without the [u] flag a
    pattern works on code units; without [m], [$] holds at the end of the
    input only. *)

Inductive Regex :=
| Chars (s : JSString)            (* literal characters *)
| Star (cls : N -> bool)          (* [cls*] *)
| StarLazy (cls : N -> bool)      (* [cls*?] *)
| Group (r : Regex)               (* [( r )], the capture group 1 *)
| Seq (r1 r2 : Regex)             (* [r1 r2] *)
| Alt (r1 r2 : Regex)             (* [r1 | r2] *)
| EndOfInput.                     (* [$] *)

(** [\s]: WhiteSpace and LineTerminator. *)
Definition isSpace (c : N) : bool :=
  ((9 <=? c) && (c <=? 13)) || (c =? 32) || (c =? 0xA0) || (c =? 0x1680)
  || ((0x2000 <=? c) && (c <=? 0x200A)) || (c =? 0x2028) || (c =? 0x2029)
  || (c =? 0x202F) || (c =? 0x205F) || (c =? 0x3000) || (c =? 0xFEFF).

(** [[\s\S]]: every code unit. *)
Definition anyUnit (c : N) : bool := isSpace c || negb (isSpace c).

(** Canonicalize of the [i] flag, for the patterns of the source: their
    units are ASCII letters and the two surrogates of an emoji.  A unit
    above 127 never folds to an ASCII letter, and nothing folds to a
    surrogate, so only ASCII letters need folding. *)
Definition canonicalize (ignoreCase : bool) (c : N) : N :=
  if ignoreCase && (97 <=? c) && (c <=? 122) then c - 32 else c.

Fixpoint matchChars (ignoreCase : bool) (p s : JSString) {struct p}
  : option JSString :=
  match p, s with
  | [], _ => Some s
  | _ :: _, [] => None
  | k :: p', c :: s' =>
      if canonicalize ignoreCase c =? canonicalize ignoreCase k
      then matchChars ignoreCase p' s' else None
  end.

Definition Captured := option JSString.
Definition MatchState : Type := JSString * Captured.

Fixpoint starGreedy (cls : N -> bool) (s : JSString)
    (k : JSString -> option MatchState) : option MatchState :=
  match s with
  | c :: s' =>
      if cls c then
        match starGreedy cls s' k with
        | Some m => Some m
        | None => k s
        end
      else k s
  | [] => k s
  end.

Fixpoint starLazy (cls : N -> bool) (s : JSString)
    (k : JSString -> option MatchState) : option MatchState :=
  match k s with
  | Some m => Some m
  | None =>
      match s with
      | c :: s' => if cls c then starLazy cls s' k else None
      | [] => None
      end
  end.

(** The units of [s] in front of its suffix [rest]. *)
Definition consumed (s rest : JSString) : JSString :=
  firstn (List.length s - List.length rest) s.

(** [matchRe i r s cap k]: match [r] at the front of [s], then go on with
    [k] on what is left; when [k] fails, try the next way to match [r]. *)
Fixpoint matchRe (ignoreCase : bool) (r : Regex) (s : JSString) (cap : Captured)
    (k : JSString -> Captured -> option MatchState) : option MatchState :=
  match r with
  | Chars p =>
      match matchChars ignoreCase p s with
      | Some rest => k rest cap
      | None => None
      end
  | Star cls => starGreedy cls s (fun rest => k rest cap)
  | StarLazy cls => starLazy cls s (fun rest => k rest cap)
  | Group r1 =>
      matchRe ignoreCase r1 s cap (fun rest _ => k rest (Some (consumed s rest)))
  | Seq r1 r2 =>
      matchRe ignoreCase r1 s cap (fun rest cap' => matchRe ignoreCase r2 rest cap' k)
  | Alt r1 r2 =>
      match matchRe ignoreCase r1 s cap k with
      | Some m => Some m
      | None => matchRe ignoreCase r2 s cap k
      end
  | EndOfInput =>
      match s with
      | [] => k s cap
      | _ :: _ => None
      end
  end.

(** A match that starts at the front of [s]: what is left, and group 1. *)
Definition matchAt (ignoreCase : bool) (r : Regex) (s : JSString) : option MatchState :=
  matchRe ignoreCase r s None (fun rest cap => Some (rest, cap)).

(** [s.match(r)] for a pattern without the [g] flag: the match at the
    least index, as its capture group 1; [None] is [null]. *)
Fixpoint jsMatch (r : Regex) (s : JSString) : option Captured :=
  match matchAt false r s with
  | Some (_, cap) => Some cap
  | None =>
      match s with
      | [] => None
      | _ :: s' => jsMatch r s'
      end
  end.

(** [(s.match(r) || []).length] for a pattern with the [g] flag: the
    number of matches, each search starting where the last match ended
    (one unit further after an empty match).  [skip] counts the units of
    the last match still to step over. *)
Fixpoint countMatches (ignoreCase : bool) (r : Regex) (skip : nat) (s : JSString) : N :=
  match s with
  | [] =>
      match skip, matchAt ignoreCase r [] with
      | O, Some _ => 1
      | _, _ => 0
      end
  | _ :: s' =>
      match skip with
      | S n => countMatches ignoreCase r n s'
      | O =>
          match matchAt ignoreCase r s with
          | Some (rest, _) =>
              1 + countMatches ignoreCase r (List.length s - List.length rest - 1) s'
          | None => countMatches ignoreCase r 0 s'
          end
      end
  end.

Definition nl : JSString := [10].

(** [/FIXED_CODE:\s*```rust\n([\s\S]*?)\n```/] *)
Definition fixedCodePattern : Regex :=
  Seq (Chars (lit "FIXED_CODE:"))
 (Seq (Star isSpace)
 (Seq (Chars (lit "```rust" ++ nl))
 (Seq (Group (StarLazy anyUnit))
      (Chars (nl ++ lit "```"))))).

(** [/CHANGES_SUMMARY:\s*([\s\S]*?)(?:\n\n|\n$|$)/] *)
Definition changesSummaryPattern : Regex :=
  Seq (Chars (lit "CHANGES_SUMMARY:"))
 (Seq (Star isSpace)
 (Seq (Group (StarLazy anyUnit))
      (Alt (Chars (nl ++ nl))
      (Alt (Seq (Chars nl) EndOfInput)
           EndOfInput)))).

(** [/E|vulnerability|issue/gi], where E is the emoji U+1F6A8 of the
    source: the surrogate pair D83D DEA8. *)
Definition issueMarkerPattern : Regex :=
  Alt (Chars [0xD83D; 0xDEA8])
 (Alt (Chars (lit "vulnerability"))
      (Chars (lit "issue"))).

(** ** The three steps *)

Section Steps.

Variable lowerNonAscii : UnicodeLower.
Variable agent : Agent.

Definition staticPrompt (inputData : AuditRequest) : JSString :=
  lit "
You are a Solana smart contract security auditor. Analyze this code:

File: " ++ orDefault (fileName inputData) (lit "program.rs") ++ lit "
Program ID: " ++ orDefault (programId inputData) (lit "Unknown") ++ lit "

Code:
```rust
" ++ code inputData ++ lit "
```

Focus on:
- Missing signer checks (ctx.accounts.authority.is_signer)
- PDA validation and seed verification
- Account validation (owner, account type, constraints)
- Integer overflow/underflow (use checked_add, checked_sub, etc.)
- Reentrancy via CPI calls
- Rent exemption and ownership checks
- Access control and authorization
- Proper error handling

Provide detailed analysis with line numbers and severity levels.
".

(** The severity expression of [staticAnalysis]. *)
Definition classifySeverity (issues : JSString) : Severity :=
  if includes (toLowerCase lowerNonAscii issues) (lit "critical") then Critical
  else if includes (toLowerCase lowerNonAscii issues) (lit "high") then High
  else if includes (toLowerCase lowerNonAscii issues) (lit "medium") then Medium
  else Low.

Definition staticAnalysis (inputData : AuditRequest) : Completion StageAResult :=
  let prompt := staticPrompt inputData in
  tryCatch
    (resp <- agent [{| role := lit "user"; content := prompt |}] ;;
     issues <- forAwait resp (fun issues chunk => issues ++ chunk) [] ;;
     let severity := classifySeverity issues in
     let issueCount := countMatches true issueMarkerPattern 0 issues in
     Normal {| issues := issues; severity := severity; issueCount := issueCount |})
    (fun error =>
     Normal {| issues := lit "Static analysis failed: " ++ message error;
               severity := Medium;
               issueCount := 0 |}).

Definition dynamicPrompt (inputData : StageBInput) : JSString :=
  lit "
Based on the static analysis findings, create test scenarios for this Solana program:

Code:
```rust
" ++ codeB inputData ++ lit "
```

Static Analysis Results:
" ++ issuesB inputData ++ lit "

Generate test cases that would:
1. Exploit identified vulnerabilities
2. Test edge cases and boundary conditions
3. Verify access control mechanisms
4. Test integer overflow scenarios
5. Simulate reentrancy attacks via CPI

For each test case, describe:
- What it tests
- Expected behavior
- Potential exploits
- How to fix if vulnerable

Format as a simulation report.
".

Definition dynamicAnalysis (inputData : StageBInput) : Completion StageBResult :=
  let prompt := dynamicPrompt inputData in
  tryCatch
    (resp <- agent [{| role := lit "user"; content := prompt |}] ;;
     report <- forAwait resp (fun report chunk => report ++ chunk) [] ;;
     let testResults :=
       [ {| testCase := lit "Authorization Check Test";
            passed := includes report (lit "properly authorized");
            details := lit "Testing signer validation and access control" |};
         {| testCase := lit "PDA Validation Test";
            passed := includes report (lit "PDA correctly validated");
            details := lit "Testing Program Derived Address validation" |};
         {| testCase := lit "Integer Overflow Test";
            passed := includes report (lit "safe arithmetic");
            details := lit "Testing for integer overflow vulnerabilities" |} ] in
     Normal {| simulationReport := report; testResults := testResults |})
    (fun error =>
     Normal {| simulationReport := lit "Dynamic analysis failed: " ++ message error;
               testResults := [] |}).

(** [parts.join(sep)] *)
Fixpoint join (sep : JSString) (parts : list JSString) : JSString :=
  match parts with
  | [] => []
  | [p] => p
  | p :: rest => p ++ sep ++ join sep rest
  end.

Definition testResultLine (t : TestResult) : JSString :=
  lit "- " ++ testCase t ++ lit ": "
    ++ (if passed t then lit "PASSED" else lit "FAILED")
    ++ lit " (" ++ details t ++ lit ")".

Definition fixPrompt (inputData : StageCInput) : JSString :=
  lit "
Given this Rust/Anchor Solana contract:
```rust
" ++ codeC inputData ++ lit "
```

Issues found:
" ++ issuesC inputData ++ lit "

Simulation results: " ++ simulationReportC inputData ++ lit "

Test results:
" ++ join nl (map testResultLine (testResultsC inputData)) ++ lit "

Rewrite the code with security fixes. For each fix:
1. Add clear comments explaining what was fixed
2. Use proper Anchor constraints and validations
3. Implement safe arithmetic operations
4. Add proper error handling
5. Ensure all accounts are properly validated

After the fixed code, provide a summary of changes made.

Output format:
FIXED_CODE:
```rust
[your fixed code here]
```

CHANGES_SUMMARY:
[bullet points of what was fixed]
".

(** [m[1]] of a match.  Group 1 takes part in every match of the two
    patterns of [autoFix] ([fixedCode_group_defined],
    [changesSummary_group_defined]); the branch for [undefined] is not
    reached. *)
Definition group1 (cap : Captured) : JSString :=
  match cap with
  | Some s => s
  | None => lit "undefined"
  end.

Definition autoFix (inputData : StageCInput) : Completion StageCResult :=
  let prompt := fixPrompt inputData in
  tryCatch
    (resp <- agent [{| role := lit "user"; content := prompt |}] ;;
     response <- forAwait resp (fun response chunk => response ++ chunk) [] ;;
     let codeMatch := jsMatch fixedCodePattern response in
     let summaryMatch := jsMatch changesSummaryPattern response in
     let fixedCode :=
       match codeMatch with
       | Some m => group1 m
       | None => response
       end in
     let changesSummary :=
       match summaryMatch with
       | Some m => group1 m
       | None => lit "Code fixes applied"
       end in
     let confidence :=
       match codeMatch, summaryMatch with
       | Some _, Some _ => 85
       | _, _ => 60
       end in
     Normal {| fixedCode := fixedCode;
               changesSummary := changesSummary;
               confidence := confidence |})
    (fun error =>
     Normal {| fixedCode := codeC inputData;
               changesSummary := lit "Auto-fix failed: " ++ message error;
               confidence := 0 |}).

End Steps.

(** ** The workflow *)

(** The result of parsing a value against a zod schema. *)
Inductive Parsed (A : Type) : Type :=
| Valid (a : A)
| Invalid (messages : list JSString).
Arguments Valid {A} a.
Arguments Invalid {A} messages.

(** The schema [auditInput] on a request: [code] is
    [z.string().min(1, "Code cannot be empty")], the other fields are
    optional. *)
Definition auditInput (req : AuditRequest) : Parsed AuditRequest :=
  if jsLength (code req) <? 1
  then Invalid [lit "Code cannot be empty"]
  else Valid req.

(** The schema [auditOutput]. *)
Record AuditOutput := {
  out_issues : JSString;
  out_severity : Severity;
  out_issueCount : N;
  out_simulationReport : option JSString;
  out_testResults : option (list TestResult);
  out_fixedCode : option JSString;
  out_changesSummary : option JSString;
  out_confidence : option N
}.

(** The [id] of a step. *)
Inductive StepId := StaticAnalysisId | DynamicAnalysisId | AutoFixId.

Inductive WorkflowResult :=
| Rejected (messages : list JSString)   (* the input failed [auditInput] *)
| Failed (e : JSError)                  (* a step threw *)
| Success (output : AuditOutput).

(** A run: the steps that were executed, in order, and the result. *)
Record WorkflowRun := { executed : list StepId; result : WorkflowResult }.

(** Modelled from the spec: the runner of the Mastra framework behind
    [createWorkflow({inputSchema, outputSchema}).then(..).then(..).then(..)],
    which is a dependency and not among the sources.  The input is parsed
    against the input schema before any step runs; the steps run in the
    order of the chain; the output of step A feeds step B, the output of
    step B and the original code feed step C; an error that leaves a step
    ends the run. *)
Definition auditorWorkflow (lowerNonAscii : UnicodeLower) (agent : Agent)
    (req : AuditRequest) : WorkflowRun :=
  match auditInput req with
  | Invalid messages => {| executed := []; result := Rejected messages |}
  | Valid input =>
      match staticAnalysis lowerNonAscii agent input with
      | Throw e => {| executed := [StaticAnalysisId]; result := Failed e |}
      | Normal a =>
          match dynamicAnalysis agent
                  {| codeB := code input; issuesB := issues a;
                     severityB := severity a; issueCountB := issueCount a;
                     testCasesB := testCases input |} with
          | Throw e =>
              {| executed := [StaticAnalysisId; DynamicAnalysisId];
                 result := Failed e |}
          | Normal b =>
              match autoFix agent
                      {| codeC := code input; issuesC := issues a;
                         simulationReportC := simulationReport b;
                         testResultsC := testResults b |} with
              | Throw e =>
                  {| executed := [StaticAnalysisId; DynamicAnalysisId; AutoFixId];
                     result := Failed e |}
              | Normal c =>
                  {| executed := [StaticAnalysisId; DynamicAnalysisId; AutoFixId];
                     result := Success
                       {| out_issues := issues a;
                          out_severity := severity a;
                          out_issueCount := issueCount a;
                          out_simulationReport := Some (simulationReport b);
                          out_testResults := Some (testResults b);
                          out_fixedCode := Some (fixedCode c);
                          out_changesSummary := Some (changesSummary c);
                          out_confidence := Some (confidence c) |} |}
              end
          end
      end
  end.

(** ** The helper [validateSolanaProgram] *)

Record Validation := { isValid : bool; errors : list JSString }.

Definition missingImports : JSString := lit "Missing Solana/Anchor imports".
Definition missingEntryPoint : JSString := lit "Missing program entry point".
Definition foundUnwrap : JSString :=
  lit "Found unwrap() calls - use proper error handling".

(** [errors.push(m)] under [if (cond)]. *)
Definition pushIf (cond : bool) (m : JSString) (errors : list JSString)
  : list JSString :=
  if cond then errors ++ [m] else errors.

Definition validateSolanaProgram (code : JSString) : Validation :=
  let errors := [] in
  let errors :=
    pushIf (negb (includes code (lit "use anchor_lang::prelude::*"))
            && negb (includes code (lit "use solana_program::")))
           missingImports errors in
  let errors :=
    pushIf (negb (includes code (lit "#[program]"))
            && negb (includes code (lit "entrypoint!")))
           missingEntryPoint errors in
  let errors :=
    pushIf (includes code (lit "unwrap()")) foundUnwrap errors in
  {| isValid := N.of_nat (List.length errors) =? 0; errors := errors |}.

(** ** The severity rule in the words of the specification *)

(** [kw] occurs in [s] in some letter case: a substring of [s] is [kw]
    up to the case of its ASCII letters. *)
Definition occursIgnoringCase (kw s : JSString) : Prop :=
  exists a m b, s = a ++ m ++ b /\ map asciiLower m = kw.

(** Case-insensitive substring search. *)
Definition containsIgnoringCase (s kw : JSString) : bool :=
  includes (map asciiLower s) kw.

(** "critical" > "high" > "medium", else "low". *)
Definition severityByKeyword (text : JSString) : Severity :=
  if containsIgnoringCase text (lit "critical") then Critical
  else if containsIgnoringCase text (lit "high") then High
  else if containsIgnoringCase text (lit "medium") then Medium
  else Low.

(** A keyword whose search does not depend on the lower case of units
    above 127: its units are ASCII, none is "k", and an "i" is never its
    last unit. *)
Fixpoint plainKeyword (kw : JSString) : bool :=
  match kw with
  | [] => true
  | k :: kw' =>
      (k <? 128) && negb (k =? 0x6B)
      && (negb (k =? 0x69) || match kw' with [] => false | _ :: _ => true end)
      && plainKeyword kw'
  end.

(** Whether the group of a pattern is set on every way through it. *)
Fixpoint setsGroup (r : Regex) : bool :=
  match r with
  | Group _ => true
  | Seq r1 r2 => setsGroup r1 || setsGroup r2
  | Alt r1 r2 => setsGroup r1 && setsGroup r2
  | Chars _ | Star _ | StarLazy _ | EndOfInput => false
  end.

(** [l] is [k] with some of its entries left out, the order kept. *)
Inductive subsequence {A : Type} : list A -> list A -> Prop :=
| subsequence_nil : subsequence [] []
| subsequence_skip x l k : subsequence l k -> subsequence l (x :: k)
| subsequence_keep x l k : subsequence l k -> subsequence (x :: l) (x :: k).

(** ** Stub agents and sample inputs *)

(** An agent that answers every prompt with the same fragments. *)
Definition answering (fs : list JSString) : Agent :=
  fun _ => Normal {| fragments := fs; failure := None |}.

(** An agent whose every call throws [e]. *)
Definition throwing (e : JSError) : Agent :=
  fun _ => Throw e.

(** An agent whose stream breaks with [e] after the fragments [fs]. *)
Definition breaking (fs : list JSString) (e : JSError) : Agent :=
  fun _ => Normal {| fragments := fs; failure := Some e |}.

(** An agent that throws [e] on the prompt of [staticAnalysis] and
    answers every other prompt with [fs]. *)
Definition failingFirst (e : JSError) (fs : list JSString) : Agent :=
  fun messages =>
    match messages with
    | [m] =>
        if includes (content m) (lit "You are a Solana smart contract security auditor")
        then Throw e
        else Normal {| fragments := fs; failure := None |}
    | _ => Normal {| fragments := fs; failure := None |}
    end.

Definition quotaError : JSError := {| message := lit "quota exceeded" |}.

Definition sampleRequest : AuditRequest :=
  {| code := lit "pub fn update(ctx: Context<Update>) -> Result<()> { Ok(()) }";
     programId := Some [];
     fileName := None;
     testCases := None |}.

Definition emptyRequest : AuditRequest :=
  {| code := []; programId := None; fileName := None; testCases := None |}.

Definition sampleStageB : StageBInput :=
  {| codeB := code sampleRequest;
     issuesB := lit "Missing signer check";
     severityB := High;
     issueCountB := 1;
     testCasesB := None |}.

Definition sampleStageC : StageCInput :=
  {| codeC := code sampleRequest;
     issuesC := lit "Missing signer check";
     simulationReportC := lit "An attacker can update the config.";
     testResultsC := [] |}.

(** An answer in the format the prompt of [autoFix] asks for. *)
Definition formattedAnswer : list JSString :=
  [ lit "FIXED_CODE:" ++ nl ++ lit "```rust" ++ nl;
    lit "pub fn update() {}" ++ nl ++ lit "```" ++ nl ++ nl;
    lit "CHANGES_SUMMARY:" ++ nl ++ lit "- added signer check" ++ nl ].

(** ** The post-processing of a response, step by step *)

(** The [testResults] array of [dynamicAnalysis]. *)
Definition threeTests (report : JSString) : list TestResult :=
  [ {| testCase := lit "Authorization Check Test";
       passed := includes report (lit "properly authorized");
       details := lit "Testing signer validation and access control" |};
    {| testCase := lit "PDA Validation Test";
       passed := includes report (lit "PDA correctly validated");
       details := lit "Testing Program Derived Address validation" |};
    {| testCase := lit "Integer Overflow Test";
       passed := includes report (lit "safe arithmetic");
       details := lit "Testing for integer overflow vulnerabilities" |} ].

(** What [autoFix] returns on the response text. *)
Definition extractFix (response : JSString) : StageCResult :=
  {| fixedCode :=
       match jsMatch fixedCodePattern response with
       | Some m => group1 m
       | None => response
       end;
     changesSummary :=
       match jsMatch changesSummaryPattern response with
       | Some m => group1 m
       | None => lit "Code fixes applied"
       end;
     confidence :=
       match jsMatch fixedCodePattern response,
             jsMatch changesSummaryPattern response with
       | Some _, Some _ => 85
       | _, _ => 60
       end |}.


(** ** Notions used by the further properties *)

(** The order of the severity levels, as the enum lists them. *)
Definition severityRank (s : Severity) : N :=
  match s with
  | Low => 0
  | Medium => 1
  | High => 2
  | Critical => 3
  end.

(** The single message a step sends. *)
Definition userMessage (prompt : JSString) : list Message :=
  [{| role := lit "user"; content := prompt |}].

(** The first alternative of [issueMarkerPattern]. *)
Definition alarmEmoji : JSString := [0xD83D; 0xDEA8].

(** How a match of the "CHANGES_SUMMARY:" pattern ends: at a blank line
    (what follows it is [rest]), at a last line break, or at the end of
    the text. *)
Definition summaryEnd (tail rest : JSString) : Prop :=
  tail = nl ++ nl ++ rest \/ (tail = nl /\ rest = []) \/ (tail = [] /\ rest = []).

(** The end [(?:\n\n|\n$|$)] of [changesSummaryPattern], run at [tail]
    when the group began at [start]. *)
Definition summaryTail (start tail : JSString) : option MatchState :=
  matchRe false
    (Alt (Chars (nl ++ nl)) (Alt (Seq (Chars nl) EndOfInput) EndOfInput))
    tail (Some (consumed start tail)) (fun rest cap => Some (rest, cap)).

(** A [StageCInput] with the three test results of a report. *)
Definition testedStageC : StageCInput :=
  {| codeC := code sampleRequest;
     issuesC := lit "Missing signer check";
     simulationReportC := lit "Uses safe arithmetic.";
     testResultsC := threeTests (lit "Uses safe arithmetic.") |}.

(** An answer with a preamble in front of the requested format. *)
Definition answerWithPreamble : JSString :=
  (lit "Here you go:" ++ nl)
    ++ lit "FIXED_CODE:" ++ nl ++ (lit "```rust" ++ nl)
    ++ lit "pub fn update() {}" ++ (nl ++ lit "```")
    ++ (nl ++ nl ++ lit "CHANGES_SUMMARY: none").

(** An answer with a summary only. *)
Definition summaryAnswer : JSString :=
  (lit "Done." ++ nl)
    ++ lit "CHANGES_SUMMARY:" ++ [32] ++ lit "- added signer check" ++ nl.

(** * Properties *)

(** ** Substring search *)

Lemma startsWith_iff (kw s : JSString) :
  startsWith s kw = true <-> exists b, s = kw ++ b.
Proof.
  revert s; induction kw as [|k kw IH]; intros s; simpl.
  - split; [intros _; now exists s | reflexivity].
  - destruct s as [|c s]; simpl.
    + split; [discriminate | intros [b Hb]; discriminate].
    + rewrite andb_true_iff, N.eqb_eq, IH. split.
      * intros [-> [b ->]]. now exists b.
      * intros [b Hb]. injection Hb as -> ->. split; [reflexivity | now exists b].
Qed.

Lemma includes_iff (kw s : JSString) :
  includes s kw = true <-> occursIn kw s.
Proof.
  unfold occursIn. induction s as [|c s IH].
  - simpl. rewrite orb_false_r, startsWith_iff. split.
    + intros [b Hb]. now exists [], b.
    + intros [a [b Hab]]. destruct a; simpl in Hab.
      * now exists b.
      * discriminate.
  - cbn [includes]. rewrite orb_true_iff, startsWith_iff, IH. split.
    + intros [[b Hb] | [a [b Hab]]].
      * now exists [], b.
      * exists (c :: a), b. simpl. now f_equal.
    + intros [a [b Hab]]. destruct a as [|x a]; simpl in Hab.
      * left. now exists b.
      * right. injection Hab as -> ->. now exists a, b.
Qed.

Lemma includes_false_iff (kw s : JSString) :
  includes s kw = false <-> ~ occursIn kw s.
Proof.
  rewrite <- includes_iff. destruct (includes s kw); split; intros H;
    try reflexivity; try discriminate; try (intros H'; discriminate).
  exfalso; now apply H.
Qed.

(** ** Lower case and keywords *)

Lemma asciiLower_ascii (c : N) : asciiLower c < 128 -> c < 128.
Proof.
  unfold asciiLower.
  destruct ((65 <=? c) && (c <=? 90)) eqn:E; [|trivial].
  apply andb_true_iff in E as [_ E]. apply N.leb_le in E. lia.
Qed.

Lemma plainKeyword_ascii (kw : JSString) :
  plainKeyword kw = true -> Forall (fun k => k < 128) kw.
Proof.
  induction kw as [|k kw IH]; simpl; intros H; constructor.
  - repeat (apply andb_true_iff in H as [H ?]). now apply N.ltb_lt.
  - apply IH. now apply andb_true_iff in H as [_ H].
Qed.

Lemma map_asciiLower_ascii (m : JSString) :
  Forall (fun k => k < 128) (map asciiLower m) -> Forall (fun c => c < 128) m.
Proof.
  induction m as [|c m IH]; simpl; intros H; inversion H; subst; constructor.
  - now apply asciiLower_ascii.
  - now apply IH.
Qed.

Section LowerCase.

Variable lowerNonAscii : UnicodeLower.

Lemma lowerFrom_app (a rest before : JSString) :
  exists x, lowerFrom lowerNonAscii before (a ++ rest)
            = x ++ lowerFrom lowerNonAscii (before ++ a) rest.
Proof.
  revert before; induction a as [|c a IH]; intros before; simpl.
  - exists []. now rewrite app_nil_r.
  - destruct (IH (before ++ [c])) as [x Hx].
    exists (lowerUnit lowerNonAscii before c (a ++ rest) ++ x).
    rewrite Hx, <- !app_assoc. reflexivity.
Qed.

Lemma lowerFrom_ascii (m rest before : JSString) :
  Forall (fun c => c < 128) m ->
  lowerFrom lowerNonAscii before (m ++ rest)
  = map asciiLower m ++ lowerFrom lowerNonAscii (before ++ m) rest.
Proof.
  intros H; revert before; induction H as [|c m Hc _ IH]; intros before; simpl.
  - now rewrite app_nil_r.
  - unfold lowerUnit. apply N.ltb_lt in Hc. rewrite Hc. simpl.
    rewrite IH, <- app_assoc. reflexivity.
Qed.

(** An occurrence in some letter case survives [toLowerCase]. *)
Lemma occursIgnoringCase_lower (kw s : JSString) :
  Forall (fun k => k < 128) kw ->
  occursIgnoringCase kw s ->
  includes (toLowerCase lowerNonAscii s) kw = true.
Proof.
  intros Hkw (a & m & b & -> & Hm). apply includes_iff.
  unfold toLowerCase. destruct (lowerFrom_app a (m ++ b) []) as [x ->].
  rewrite lowerFrom_ascii by (apply map_asciiLower_ascii; now rewrite Hm).
  rewrite Hm. now exists x, (lowerFrom lowerNonAscii (([] ++ a) ++ m) b).
Qed.

Hypothesis tables : keepsNonAscii lowerNonAscii.

(** The lower case of a unit is not empty, and past its first unit it has
    no ASCII unit. *)
Lemma lowerUnit_shape (before : JSString) (c : N) (after : JSString) :
  exists h t, lowerUnit lowerNonAscii before c after = h :: t
              /\ (c < 128 -> h = asciiLower c /\ t = [])
              /\ (128 <= c -> h = 0x69 \/ h = 0x6B \/ 128 <= h)
              /\ (h = 0x69 -> 128 <= c -> t = [0x307])
              /\ Forall (fun x => 128 <= x) t.
Proof.
  unfold lowerUnit.
  destruct (c <? 128) eqn:E1.
  { apply N.ltb_lt in E1. exists (asciiLower c), []. repeat split; auto; lia. }
  apply N.ltb_ge in E1.
  destruct (c =? 0x130) eqn:E2.
  { exists 0x69, [0x307]. repeat split; auto; try lia.
    constructor; [lia | constructor]. }
  destruct (c =? 0x212A) eqn:E3.
  { exists 0x6B, []. repeat split; auto; lia. }
  apply N.eqb_neq in E2, E3.
  destruct (tables before c after E1 E2 E3) as [Hne Hall].
  destruct (lowerNonAscii before c after) as [|h t]; [congruence|].
  inversion Hall; subst.
  exists h, t. repeat split; auto; lia.
Qed.

(** A plain keyword at the front of a lower-cased text comes from the
    front of the text. *)
Lemma startsWith_lower (kw s before : JSString) :
  plainKeyword kw = true ->
  startsWith (lowerFrom lowerNonAscii before s) kw = true ->
  exists m b, s = m ++ b /\ map asciiLower m = kw.
Proof.
  revert s before; induction kw as [|k kw IH]; intros s before Hp Hs.
  - now exists [], s.
  - destruct s as [|c after]; [discriminate|].
    cbn [lowerFrom] in Hs.
    destruct (lowerUnit_shape before c after) as (h & t & Hb & Hlo & Hhi & Hi & Ht).
    rewrite Hb in Hs. cbn [app startsWith] in Hs.
    apply andb_true_iff in Hs as [Hk Hs]. apply N.eqb_eq in Hk. subst h.
    cbn [plainKeyword] in Hp.
    apply andb_true_iff in Hp as [Hp Hp'].
    apply andb_true_iff in Hp as [Hp Hlast].
    apply andb_true_iff in Hp as [Hasc Hnk].
    apply N.ltb_lt in Hasc. apply negb_true_iff, N.eqb_neq in Hnk.
    destruct (N.lt_ge_cases c 128) as [Hc | Hc].
    + destruct (Hlo Hc) as [-> ->]. cbn [app] in Hs.
      destruct (IH _ _ Hp' Hs) as (m & b & -> & Hm).
      exists (c :: m), b. simpl. now rewrite Hm.
    + exfalso. destruct (Hhi Hc) as [-> | [-> | Hh]]; [| congruence | lia].
      rewrite (Hi eq_refl Hc) in Hs. cbn [app] in Hs.
      destruct kw as [|k2 kw]; [discriminate|].
      cbn [startsWith] in Hs. apply andb_true_iff in Hs as [Hk2 _].
      apply N.eqb_eq in Hk2. subst k2.
      cbn [plainKeyword] in Hp'. discriminate.
Qed.

Lemma includes_skip_high (x y kw : JSString) (k : N) :
  k < 128 ->
  Forall (fun u => 128 <= u) x ->
  includes (x ++ y) (k :: kw) = true ->
  includes y (k :: kw) = true.
Proof.
  intros Hk Hx; induction Hx as [|u x Hu _ IH]; [trivial|].
  cbn [app includes startsWith]. intros H.
  apply orb_true_iff in H as [H | H]; [|now apply IH].
  apply andb_true_iff in H as [H _]. apply N.eqb_eq in H. lia.
Qed.

Lemma includes_lower (kw s before : JSString) :
  plainKeyword kw = true ->
  includes (lowerFrom lowerNonAscii before s) kw = true ->
  occursIgnoringCase kw s.
Proof.
  intros Hp. destruct kw as [|k kw]; [intros _; now exists [], [], s|].
  assert (Hk : k < 128).
  { apply plainKeyword_ascii in Hp. now inversion Hp. }
  revert before; induction s as [|c after IH]; intros before H.
  - discriminate.
  - pose proof H as H0. cbn [lowerFrom] in H.
    destruct (lowerUnit_shape before c after) as (h & t & Hb & _ & _ & _ & Ht).
    rewrite Hb in H. cbn [app includes] in H.
    apply orb_true_iff in H as [H | H].
    + assert (Hs : startsWith (lowerFrom lowerNonAscii before (c :: after)) (k :: kw) = true).
      { cbn [lowerFrom]. now rewrite Hb. }
      destruct (startsWith_lower _ _ _ Hp Hs) as (m & b & E & Hm).
      now exists [], m, b.
    + apply includes_skip_high in H; [|assumption..].
      destruct (IH _ H) as (a & m & b & -> & Hm).
      now exists (c :: a), m, b.
Qed.

(** On a plain keyword, searching the lower-cased text is searching the
    text without regard to letter case. *)
Lemma includes_toLowerCase (kw s : JSString) :
  plainKeyword kw = true ->
  includes (toLowerCase lowerNonAscii s) kw = true <-> occursIgnoringCase kw s.
Proof.
  intros Hp; split.
  - now apply includes_lower.
  - apply occursIgnoringCase_lower. now apply plainKeyword_ascii.
Qed.

End LowerCase.

Lemma containsIgnoringCase_iff (kw s : JSString) :
  containsIgnoringCase s kw = true <-> occursIgnoringCase kw s.
Proof.
  unfold containsIgnoringCase, occursIgnoringCase.
  rewrite includes_iff. unfold occursIn. split.
  - intros (a' & b' & H).
    apply map_eq_app in H as (a & r & -> & <- & H).
    apply map_eq_app in H as (m & b & -> & <- & <-).
    now exists a, m, b.
  - intros (a & m & b & -> & <-). rewrite !map_app. eauto.
Qed.

Lemma includes_toLowerCase_eq (lowerNonAscii : UnicodeLower) (kw s : JSString) :
  keepsNonAscii lowerNonAscii ->
  plainKeyword kw = true ->
  includes (toLowerCase lowerNonAscii s) kw = containsIgnoringCase s kw.
Proof.
  intros HL Hp. apply eq_true_iff_eq.
  now rewrite includes_toLowerCase, containsIgnoringCase_iff.
Qed.

(** ** The matcher *)

Lemma matchChars_iff (p s rest : JSString) :
  matchChars false p s = Some rest <-> s = p ++ rest.
Proof.
  revert s; induction p as [|k p IH]; intros s; simpl.
  - split; [now intros [= ->] | now intros ->].
  - destruct s as [|c s]; [split; discriminate|].
    unfold canonicalize; cbn [andb].
    destruct (N.eqb_spec c k) as [-> | Hne].
    + rewrite IH. split; [now intros -> | now intros [= ->]].
    + split; [discriminate | intros [= -> _]; congruence].
Qed.

Lemma anyUnit_true (c : N) : anyUnit c = true.
Proof. unfold anyUnit. now destruct (isSpace c). Qed.

(** A star that succeeds has split the input: a run of units of the
    class, and a rest on which the continuation succeeds. *)
Lemma starGreedy_sound (cls : N -> bool) (s : JSString)
    (k : JSString -> option MatchState) (m : MatchState) :
  starGreedy cls s k = Some m ->
  exists run rest, s = run ++ rest /\ forallb cls run = true /\ k rest = Some m.
Proof.
  induction s as [|c s IH]; simpl.
  - intros H. now exists [], [].
  - destruct (cls c) eqn:Hc.
    + destruct (starGreedy cls s k) as [m'|] eqn:Hs.
      * intros [= <-]. destruct (IH eq_refl) as (run & rest & -> & Hrun & Hk).
        exists (c :: run), rest. simpl. now rewrite Hc, Hrun.
      * intros H. now exists [], (c :: s).
    + intros H. now exists [], (c :: s).
Qed.

Lemma starLazy_sound (cls : N -> bool) (s : JSString)
    (k : JSString -> option MatchState) (m : MatchState) :
  starLazy cls s k = Some m ->
  exists run rest, s = run ++ rest /\ forallb cls run = true /\ k rest = Some m.
Proof.
  induction s as [|c s IH]; simpl.
  - destruct (k []) eqn:Hk; [|discriminate].
    intros [= <-]. now exists [], [].
  - destruct (k (c :: s)) eqn:Hk.
    + intros [= <-]. now exists [], (c :: s).
    + destruct (cls c) eqn:Hc; [|discriminate].
      intros H. destruct (IH H) as (run & rest & -> & Hrun & Hk').
      exists (c :: run), rest. simpl. now rewrite Hc, Hrun.
Qed.

(** Backtracking is complete: whenever some split lets the continuation
    succeed, the star succeeds. *)
Lemma starGreedy_complete (cls : N -> bool) (run rest : JSString)
    (k : JSString -> option MatchState) :
  forallb cls run = true -> k rest <> None ->
  starGreedy cls (run ++ rest) k <> None.
Proof.
  intros Hrun Hk; induction run as [|c run IH]; simpl in *.
  - destruct rest as [|c rest]; simpl; [assumption|].
    destruct (cls c); [|assumption].
    now destruct (starGreedy cls rest k).
  - apply andb_true_iff in Hrun as [-> Hrun].
    specialize (IH Hrun). now destruct (starGreedy cls (run ++ rest) k).
Qed.

Lemma starLazy_complete (cls : N -> bool) (run rest : JSString)
    (k : JSString -> option MatchState) :
  forallb cls run = true -> k rest <> None ->
  starLazy cls (run ++ rest) k <> None.
Proof.
  intros Hrun Hk; induction run as [|c run IH]; simpl in *.
  - destruct rest as [|c rest]; simpl.
    + now destruct (k []).
    + destruct (k (c :: rest)); [discriminate | congruence].
  - apply andb_true_iff in Hrun as [-> Hrun].
    destruct (k (c :: run ++ rest)); [discriminate | now apply IH].
Qed.

(** What a successful match did with group 1. *)
Lemma matchRe_group (ignoreCase : bool) (r : Regex) :
  forall s cap k m,
    matchRe ignoreCase r s cap k = Some m ->
    exists rest cap',
      k rest cap' = Some m
      /\ (cap <> None -> cap' <> None)
      /\ (setsGroup r = true -> cap' <> None).
Proof.
  induction r as [p | cls | cls | r1 IH1 | r1 IH1 r2 IH2 | r1 IH1 r2 IH2 | ];
    intros s cap k m; cbn [matchRe setsGroup].
  - destruct (matchChars ignoreCase p s) as [rest|]; [|discriminate].
    intros H. exists rest, cap. repeat split; [assumption | auto | discriminate].
  - intros H. apply starGreedy_sound in H as (_ & rest & _ & _ & H).
    exists rest, cap. repeat split; [assumption | auto | discriminate].
  - intros H. apply starLazy_sound in H as (_ & rest & _ & _ & H).
    exists rest, cap. repeat split; [assumption | auto | discriminate].
  - intros H. apply IH1 in H as (rest & _ & H & _).
    exists rest, (Some (consumed s rest)). repeat split; [assumption | | ]; discriminate.
  - intros H. apply IH1 in H as (rest1 & cap1 & H & Hkeep1 & Hset1).
    apply IH2 in H as (rest & cap' & H & Hkeep2 & Hset2).
    exists rest, cap'. repeat split; [assumption | auto |].
    intros Hs. apply orb_true_iff in Hs as [Hs | Hs]; auto.
  - destruct (matchRe ignoreCase r1 s cap k) as [m1|] eqn:H1.
    + intros [= <-]. apply IH1 in H1 as (rest & cap' & H & Hkeep & Hset).
      exists rest, cap'. repeat split; [assumption | auto |].
      intros Hs. apply andb_true_iff in Hs as [Hs _]. auto.
    + intros H. apply IH2 in H as (rest & cap' & H & Hkeep & Hset).
      exists rest, cap'. repeat split; [assumption | auto |].
      intros Hs. apply andb_true_iff in Hs as [_ Hs]. auto.
  - destruct s; [|discriminate].
    intros H. exists [], cap. repeat split; [assumption | auto | discriminate].
Qed.

(** [s.match(r)] finds a match exactly when [r] matches at the front of
    some suffix of [s]. *)
Lemma jsMatch_iff (r : Regex) (s : JSString) :
  jsMatch r s <> None <->
  exists a t, s = a ++ t /\ matchAt false r t <> None.
Proof.
  induction s as [|c s IH]; cbn [jsMatch].
  - destruct (matchAt false r []) as [[rest cap]|] eqn:E; split.
    + intros _. exists [], []. split; [reflexivity | congruence].
    + discriminate.
    + congruence.
    + intros (a & t & Hat & Hm). destruct a, t; try discriminate. congruence.
  - destruct (matchAt false r (c :: s)) as [[rest cap]|] eqn:E; split.
    + intros _. exists [], (c :: s). split; [reflexivity | congruence].
    + discriminate.
    + intros H. apply IH in H as (a & t & -> & Hm). now exists (c :: a), t.
    + intros (a & t & Hat & Hm). apply IH. destruct a as [|x a]; simpl in Hat.
      * subst t. congruence.
      * injection Hat as -> ->. now exists a, t.
Qed.

Lemma jsMatch_group (r : Regex) (s : JSString) (cap : Captured) :
  setsGroup r = true -> jsMatch r s = Some cap -> cap <> None.
Proof.
  intros Hset; induction s as [|c s IH]; cbn [jsMatch].
  - destruct (matchAt false r []) as [[rest cap0]|] eqn:E; [|discriminate].
    intros [= <-]. unfold matchAt in E.
    apply matchRe_group in E as (rest' & cap' & [= _ <-] & _ & H). auto.
  - destruct (matchAt false r (c :: s)) as [[rest cap0]|] eqn:E; [|exact IH].
    intros [= <-]. unfold matchAt in E.
    apply matchRe_group in E as (rest' & cap' & [= _ <-] & _ & H). auto.
Qed.

(** Group 1 is defined in every match of the two patterns of [autoFix]. *)
Lemma fixedCode_group_defined (s : JSString) (cap : Captured) :
  jsMatch fixedCodePattern s = Some cap -> exists text, cap = Some text.
Proof.
  intros H. apply jsMatch_group in H; [|reflexivity].
  destruct cap; [eauto | congruence].
Qed.

Lemma changesSummary_group_defined (s : JSString) (cap : Captured) :
  jsMatch changesSummaryPattern s = Some cap -> exists text, cap = Some text.
Proof.
  intros H. apply jsMatch_group in H; [|reflexivity].
  destruct cap; [eauto | congruence].
Qed.

(** The "CHANGES_SUMMARY:" pattern matches exactly the texts in which the
    marker occurs: what follows it can always be taken up to the end. *)
Lemma changesSummaryPattern_matches (s : JSString) :
  jsMatch changesSummaryPattern s <> None <->
  occursIn (lit "CHANGES_SUMMARY:") s.
Proof.
  rewrite jsMatch_iff. unfold occursIn. split.
  - intros (a & t & -> & Hm). exists a.
    unfold matchAt, changesSummaryPattern in Hm. cbn [matchRe] in Hm.
    destruct (matchChars false (lit "CHANGES_SUMMARY:") t) as [rest|] eqn:E;
      [|congruence].
    apply matchChars_iff in E. subst t. now exists rest.
  - intros (a & b & ->). exists a, (lit "CHANGES_SUMMARY:" ++ b).
    split; [reflexivity|].
    unfold matchAt, changesSummaryPattern. cbn [matchRe].
    replace (matchChars false (lit "CHANGES_SUMMARY:") (lit "CHANGES_SUMMARY:" ++ b))
      with (Some b) by (symmetry; now apply matchChars_iff).
    apply (starGreedy_complete isSpace [] b); [reflexivity|].
    rewrite <- (app_nil_r b) at 1.
    apply starLazy_complete.
    + clear. induction b as [|c b IH]; [reflexivity|].
      simpl. now rewrite anyUnit_true.
    + cbn. discriminate.
Qed.

(** The "FIXED_CODE:" pattern matches exactly the texts in which the
    marker is followed, after white space, by a fence opened with
    "```rust" and a line break, and closed later by a line break and
    "```". *)
Lemma fixedCodePattern_matches (s : JSString) :
  jsMatch fixedCodePattern s <> None <->
  exists a space body b,
    s = a ++ lit "FIXED_CODE:" ++ space ++ (lit "```rust" ++ nl)
          ++ body ++ (nl ++ lit "```") ++ b
    /\ forallb isSpace space = true.
Proof.
  rewrite jsMatch_iff. split.
  - intros (a & t & -> & Hm). exists a.
    unfold matchAt, fixedCodePattern in Hm. cbn [matchRe] in Hm.
    destruct (matchChars false (lit "FIXED_CODE:") t) as [t1|] eqn:E1;
      [|congruence].
    apply matchChars_iff in E1. subst t.
    destruct (starGreedy isSpace t1 _) as [m|] eqn:E2; [|congruence].
    apply starGreedy_sound in E2 as (space & t2 & -> & Hspace & E2).
    destruct (matchChars false (lit "```rust" ++ nl) t2) as [t3|] eqn:E3;
      [|discriminate].
    apply matchChars_iff in E3. subst t2.
    apply starLazy_sound in E2 as (body & t4 & -> & _ & E4).
    destruct (matchChars false (nl ++ lit "```") t4) as [b|] eqn:E5;
      [|discriminate].
    apply matchChars_iff in E5. subst t4.
    now exists space, body, b.
  - intros (a & space & body & b & -> & Hspace).
    eexists a, _. split; [reflexivity|].
    unfold matchAt, fixedCodePattern. cbn [matchRe].
    match goal with |- context [matchChars false ?p (?p ++ ?rest)] =>
      replace (matchChars false p (p ++ rest)) with (Some rest)
        by (symmetry; now apply matchChars_iff) end.
    apply starGreedy_complete; [assumption|].
    match goal with |- context [matchChars false ?p (?p ++ ?rest)] =>
      replace (matchChars false p (p ++ rest)) with (Some rest)
        by (symmetry; now apply matchChars_iff) end.
    apply starLazy_complete.
    + clear. induction body as [|c body IH]; [reflexivity|].
      simpl. now rewrite anyUnit_true.
    + match goal with |- context [matchChars false ?p (?p ++ ?rest)] =>
        replace (matchChars false p (p ++ rest)) with (Some rest)
          by (symmetry; now apply matchChars_iff) end.
      discriminate.
Qed.

(** ** The model invocation inside a step *)

Lemma fold_append (fs : list JSString) (init : JSString) :
  fold_left (fun text chunk => text ++ chunk) fs init = init ++ List.concat fs.
Proof.
  revert init; induction fs as [|f fs IH]; intros init; simpl.
  - now rewrite app_nil_r.
  - now rewrite IH, app_assoc.
Qed.

(** A call that succeeds yields the fragments of the stream, appended. *)
Lemma invoke_answer (agent : Agent) (prompt : JSString) (fs : list JSString) :
  agent [{| role := lit "user"; content := prompt |}]
    = Normal {| fragments := fs; failure := None |} ->
  invoke agent prompt = Normal (List.concat fs).
Proof.
  intros H. unfold invoke. rewrite H. unfold bind, forAwait. simpl.
  now rewrite fold_append.
Qed.

(** A call fails when [agent.stream] throws or when the stream breaks. *)
Lemma invoke_throw (agent : Agent) (prompt : JSString) (e : JSError) :
  invoke agent prompt = Throw e <->
  agent [{| role := lit "user"; content := prompt |}] = Throw e
  \/ exists fs, agent [{| role := lit "user"; content := prompt |}]
                = Normal {| fragments := fs; failure := Some e |}.
Proof.
  unfold invoke, bind, forAwait.
  destruct (agent _) as [[fs [e'|]]|e']; simpl; split.
  - intros [= ->]. right. now exists fs.
  - intros [H | [fs' H]]; [discriminate|]. now injection H as _ ->.
  - discriminate.
  - intros [H | [fs' H]]; discriminate.
  - intros [= ->]. now left.
  - intros [H | [fs' H]]; [now injection H as -> | discriminate].
Qed.

(** The shape every step has: the model is invoked inside [try], the text
    is post-processed by [f], and [catch] builds the result of a failure. *)
Lemma step_shape {A} (agent : Agent) (prompt : JSString)
    (f : JSString -> A) (handler : JSError -> Completion A) :
  tryCatch
    (resp <- agent [{| role := lit "user"; content := prompt |}] ;;
     text <- forAwait resp (fun text chunk => text ++ chunk) [] ;;
     Normal (f text))
    handler
  = match invoke agent prompt with
    | Normal text => Normal (f text)
    | Throw e => handler e
    end.
Proof.
  unfold invoke, bind, tryCatch.
  destruct (agent _) as [resp|e]; [|reflexivity].
  now destruct (forAwait resp _ []).
Qed.

Lemma staticAnalysis_invoke (lowerNonAscii : UnicodeLower) (agent : Agent)
    (inputData : AuditRequest) :
  staticAnalysis lowerNonAscii agent inputData
  = match invoke agent (staticPrompt inputData) with
    | Normal text =>
        Normal {| issues := text;
                  severity := classifySeverity lowerNonAscii text;
                  issueCount := countMatches true issueMarkerPattern 0 text |}
    | Throw e =>
        Normal {| issues := lit "Static analysis failed: " ++ message e;
                  severity := Medium;
                  issueCount := 0 |}
    end.
Proof.
  unfold staticAnalysis.
  exact (step_shape agent (staticPrompt inputData)
           (fun text => {| issues := text;
                           severity := classifySeverity lowerNonAscii text;
                           issueCount := countMatches true issueMarkerPattern 0 text |})
           _).
Qed.

Lemma dynamicAnalysis_invoke (agent : Agent) (inputData : StageBInput) :
  dynamicAnalysis agent inputData
  = match invoke agent (dynamicPrompt inputData) with
    | Normal report =>
        Normal {| simulationReport := report; testResults := threeTests report |}
    | Throw e =>
        Normal {| simulationReport := lit "Dynamic analysis failed: " ++ message e;
                  testResults := [] |}
    end.
Proof.
  unfold dynamicAnalysis.
  exact (step_shape agent (dynamicPrompt inputData)
           (fun report => {| simulationReport := report;
                             testResults := threeTests report |})
           _).
Qed.

Lemma autoFix_invoke (agent : Agent) (inputData : StageCInput) :
  autoFix agent inputData
  = match invoke agent (fixPrompt inputData) with
    | Normal response => Normal (extractFix response)
    | Throw e =>
        Normal {| fixedCode := codeC inputData;
                  changesSummary := lit "Auto-fix failed: " ++ message e;
                  confidence := 0 |}
    end.
Proof.
  unfold autoFix.
  exact (step_shape agent (fixPrompt inputData) extractFix _).
Qed.

(** No step lets an error out. *)
Lemma staticAnalysis_returns (lowerNonAscii : UnicodeLower) (agent : Agent)
    (inputData : AuditRequest) :
  exists a, staticAnalysis lowerNonAscii agent inputData = Normal a.
Proof. rewrite staticAnalysis_invoke. destruct (invoke _ _); eauto. Qed.

Lemma dynamicAnalysis_returns (agent : Agent) (inputData : StageBInput) :
  exists b, dynamicAnalysis agent inputData = Normal b.
Proof. rewrite dynamicAnalysis_invoke. destruct (invoke _ _); eauto. Qed.

Lemma autoFix_returns (agent : Agent) (inputData : StageCInput) :
  exists c, autoFix agent inputData = Normal c.
Proof. rewrite autoFix_invoke. destruct (invoke _ _); eauto. Qed.

Lemma auditInput_nonempty (req : AuditRequest) :
  code req <> [] -> auditInput req = Valid req.
Proof.
  unfold auditInput, jsLength. destruct (code req) as [|c s]; [congruence|].
  intros _. simpl List.length.
  destruct (N.ltb_spec (N.of_nat (S (List.length s))) 1); [lia | reflexivity].
Qed.

(** On a request that passes [auditInput] the three steps run, in order,
    and the run succeeds with the fields of their three results. *)
Lemma auditorWorkflow_runs (lowerNonAscii : UnicodeLower) (agent : Agent)
    (req : AuditRequest) :
  code req <> [] ->
  exists a b c,
    staticAnalysis lowerNonAscii agent req = Normal a
    /\ auditorWorkflow lowerNonAscii agent req =
       {| executed := [StaticAnalysisId; DynamicAnalysisId; AutoFixId];
          result := Success
            {| out_issues := issues a;
               out_severity := severity a;
               out_issueCount := issueCount a;
               out_simulationReport := Some (simulationReport b);
               out_testResults := Some (testResults b);
               out_fixedCode := Some (fixedCode c);
               out_changesSummary := Some (changesSummary c);
               out_confidence := Some (confidence c) |} |}.
Proof.
  intros Hne. unfold auditorWorkflow. rewrite (auditInput_nonempty _ Hne).
  destruct (staticAnalysis_returns lowerNonAscii agent req) as [a ->].
  match goal with |- context [dynamicAnalysis agent ?i] =>
    destruct (dynamicAnalysis_returns agent i) as [b ->] end.
  match goal with |- context [autoFix agent ?i] =>
    destruct (autoFix_returns agent i) as [c ->] end.
  now exists a, b, c.
Qed.

(** * The claims *)

(** C1.  When the model invocation of [staticAnalysis] succeeds, the
    severity it returns is a function of the accumulated response text:
    the result of the case-insensitive keyword search in the order
    "critical", "high", "medium", and [Low] when none occurs.  In
    particular a text in which "critical" occurs in some letter case is
    classified [Critical], whatever else occurs in it.  (The search is on
    the lower-cased text; that no unit above 127 brings a keyword about is
    the one fact of the Unicode tables it rests on.) *)
Theorem staticAnalysis_severity_priority
    (lowerNonAscii : UnicodeLower) (agent : Agent)
    (inputData : AuditRequest) (text : JSString) :
  invoke agent (staticPrompt inputData) = Normal text ->
  exists r,
    staticAnalysis lowerNonAscii agent inputData = Normal r
    /\ issues r = text
    /\ severity r = classifySeverity lowerNonAscii text
    /\ (occursIgnoringCase (lit "critical") text -> severity r = Critical)
    /\ (keepsNonAscii lowerNonAscii -> severity r = severityByKeyword text).
Proof.
  intros Hinv. rewrite staticAnalysis_invoke, Hinv.
  eexists; split; [reflexivity|]. cbn [issues severity].
  repeat split.
  - intros Hocc. unfold classifySeverity.
    now rewrite (occursIgnoringCase_lower lowerNonAscii _ _
                   (plainKeyword_ascii (lit "critical") eq_refl) Hocc).
  - intros HL. unfold classifySeverity, severityByKeyword.
    now rewrite !(includes_toLowerCase_eq lowerNonAscii) by (assumption || reflexivity).
Qed.

(** C2.  When the model invocation of [autoFix] succeeds, the confidence
    is 85 if both patterns match the response text and 60 if one of them
    does not; when the invocation fails it is 0.  Every run returns, with
    a confidence among 0, 60 and 85.  (Which texts the two patterns match
    is [fixedCodePattern_matches] and [changesSummaryPattern_matches].) *)
Theorem autoFix_confidence (agent : Agent) (inputData : StageCInput) :
  (forall response,
     invoke agent (fixPrompt inputData) = Normal response ->
     exists r,
       autoFix agent inputData = Normal r
       /\ (confidence r = 85 <->
           jsMatch fixedCodePattern response <> None
           /\ jsMatch changesSummaryPattern response <> None)
       /\ (confidence r <> 85 -> confidence r = 60))
  /\ (forall e,
        invoke agent (fixPrompt inputData) = Throw e ->
        exists r, autoFix agent inputData = Normal r /\ confidence r = 0)
  /\ (exists r,
        autoFix agent inputData = Normal r
        /\ (confidence r = 0 \/ confidence r = 60 \/ confidence r = 85)).
Proof.
  rewrite autoFix_invoke. repeat split.
  - intros response ->. eexists; split; [reflexivity|].
    unfold extractFix; cbn [confidence].
    destruct (jsMatch fixedCodePattern response),
             (jsMatch changesSummaryPattern response);
      repeat split; try congruence; try discriminate; try tauto;
      intros [H1 H2]; congruence.
  - intros e ->. eexists; split; reflexivity.
  - destruct (invoke agent (fixPrompt inputData)) as [response|e];
      eexists; (split; [reflexivity|]); cbn [confidence]; [|now left].
    unfold extractFix; cbn [confidence].
    destruct (jsMatch fixedCodePattern response),
             (jsMatch changesSummaryPattern response); auto.
Qed.

(** C3, as amended.  When the model invocation of [autoFix] succeeds and
    the "FIXED_CODE:" pattern does not match the response text, the
    [fixedCode] returned is the response text itself; it is the input code
    when the model invocation fails. *)
Theorem autoFix_fixedCode_fallback (agent : Agent) (inputData : StageCInput) :
  (forall response,
     invoke agent (fixPrompt inputData) = Normal response ->
     jsMatch fixedCodePattern response = None ->
     exists r, autoFix agent inputData = Normal r /\ fixedCode r = response)
  /\ (forall e,
        invoke agent (fixPrompt inputData) = Throw e ->
        exists r, autoFix agent inputData = Normal r
                  /\ fixedCode r = codeC inputData).
Proof.
  rewrite autoFix_invoke. split.
  - intros response -> Hno. eexists; split; [reflexivity|].
    unfold extractFix; cbn [fixedCode]. now rewrite Hno.
  - intros e ->. eexists; split; reflexivity.
Qed.

(** C4.  When the model invocation of [staticAnalysis] fails with an
    error, the step returns: severity [Medium], issue count 0, an issues
    text with the message of the error in it.  The workflow, on a request
    that passed its input schema, goes on to run the two other steps and
    succeeds, with these fields in its output. *)
Theorem staticAnalysis_failure_degrades
    (lowerNonAscii : UnicodeLower) (agent : Agent)
    (req : AuditRequest) (e : JSError) :
  invoke agent (staticPrompt req) = Throw e ->
  (exists r,
     staticAnalysis lowerNonAscii agent req = Normal r
     /\ severity r = Medium
     /\ issueCount r = 0
     /\ occursIn (message e) (issues r))
  /\ (code req <> [] ->
      executed (auditorWorkflow lowerNonAscii agent req)
        = [StaticAnalysisId; DynamicAnalysisId; AutoFixId]
      /\ exists out,
           result (auditorWorkflow lowerNonAscii agent req) = Success out
           /\ out_severity out = Medium
           /\ out_issueCount out = 0
           /\ occursIn (message e) (out_issues out)).
Proof.
  intros Hinv.
  assert (Ha : staticAnalysis lowerNonAscii agent req
               = Normal {| issues := lit "Static analysis failed: " ++ message e;
                           severity := Medium; issueCount := 0 |}).
  { now rewrite staticAnalysis_invoke, Hinv. }
  assert (Hocc : occursIn (message e) (lit "Static analysis failed: " ++ message e)).
  { exists (lit "Static analysis failed: "), []. now rewrite app_nil_r. }
  split.
  - eexists; split; [exact Ha|]. now repeat split.
  - intros Hne.
    destruct (auditorWorkflow_runs lowerNonAscii agent req Hne)
      as (a & b & c & Ha' & ->).
    rewrite Ha in Ha'. injection Ha' as <-.
    split; [reflexivity|]. eexists; split; [reflexivity|]. now repeat split.
Qed.

(** C5, as amended.  When the model invocation of [dynamicAnalysis]
    succeeds, [testResults] has exactly three entries, named
    "Authorization Check Test", "PDA Validation Test" and "Integer
    Overflow Test" in this order, whatever the response text is; when the
    invocation fails, [testResults] is empty. *)
Theorem dynamicAnalysis_testResults (agent : Agent) (inputData : StageBInput) :
  (forall report,
     invoke agent (dynamicPrompt inputData) = Normal report ->
     exists r,
       dynamicAnalysis agent inputData = Normal r
       /\ List.length (testResults r) = 3%nat
       /\ map testCase (testResults r)
          = [lit "Authorization Check Test"; lit "PDA Validation Test";
             lit "Integer Overflow Test"])
  /\ (forall e,
        invoke agent (dynamicPrompt inputData) = Throw e ->
        exists r, dynamicAnalysis agent inputData = Normal r
                  /\ testResults r = []).
Proof.
  rewrite dynamicAnalysis_invoke. split.
  - intros report ->. eexists; split; [reflexivity|]. now split.
  - intros e ->. eexists; split; reflexivity.
Qed.

(** C6.  When the model invocation of [dynamicAnalysis] succeeds, the
    three entries are passed exactly when "properly authorized", "PDA
    correctly validated" and "safe arithmetic", in this order, occur
    verbatim in the response text. *)
Theorem dynamicAnalysis_passed_flags
    (agent : Agent) (inputData : StageBInput) (report : JSString) :
  invoke agent (dynamicPrompt inputData) = Normal report ->
  exists auth pda overflow,
    dynamicAnalysis agent inputData
      = Normal {| simulationReport := report;
                  testResults := [auth; pda; overflow] |}
    /\ testCase auth = lit "Authorization Check Test"
    /\ (passed auth = true <-> occursIn (lit "properly authorized") report)
    /\ testCase pda = lit "PDA Validation Test"
    /\ (passed pda = true <-> occursIn (lit "PDA correctly validated") report)
    /\ testCase overflow = lit "Integer Overflow Test"
    /\ (passed overflow = true <-> occursIn (lit "safe arithmetic") report).
Proof.
  intros Hinv. rewrite dynamicAnalysis_invoke, Hinv. unfold threeTests.
  do 3 eexists. split; [reflexivity|]. cbn [testCase passed].
  repeat split; try apply includes_iff.
Qed.

(** C7.  A request whose code is the empty string is rejected by the
    input schema with the message "Code cannot be empty", and the workflow
    executes no step on it; a request whose code is not empty is accepted
    by the schema. *)
Theorem auditInput_rejects_empty_code (req : AuditRequest) :
  (code req = [] ->
   auditInput req = Invalid [lit "Code cannot be empty"]
   /\ forall lowerNonAscii agent,
        auditorWorkflow lowerNonAscii agent req
        = {| executed := []; result := Rejected [lit "Code cannot be empty"] |})
  /\ (code req <> [] -> auditInput req = Valid req).
Proof.
  split.
  - intros Hempty.
    assert (H : auditInput req = Invalid [lit "Code cannot be empty"]).
    { unfold auditInput. now rewrite Hempty. }
    split; [exact H|]. intros lowerNonAscii agent.
    unfold auditorWorkflow. now rewrite H.
  - apply auditInput_nonempty.
Qed.

(** C8.  [validateSolanaProgram] reports "Missing Solana/Anchor imports"
    exactly when the code contains neither "use anchor_lang::prelude::*"
    nor "use solana_program::", "Missing program entry point" exactly when
    it contains neither "#[program]" nor "entrypoint!", and the unwrap
    message exactly when it contains "unwrap()".  The workflow does not
    consult it: on every request that passes the input schema the three
    steps run, whatever the helper says of the code. *)
Theorem validateSolanaProgram_lexical (code0 : JSString) :
  (In missingImports (errors (validateSolanaProgram code0)) <->
     ~ occursIn (lit "use anchor_lang::prelude::*") code0
     /\ ~ occursIn (lit "use solana_program::") code0)
  /\ (In missingEntryPoint (errors (validateSolanaProgram code0)) <->
        ~ occursIn (lit "#[program]") code0
        /\ ~ occursIn (lit "entrypoint!") code0)
  /\ (In foundUnwrap (errors (validateSolanaProgram code0)) <->
        occursIn (lit "unwrap()") code0)
  /\ (forall lowerNonAscii agent req,
        code req = code0 -> code0 <> [] ->
        executed (auditorWorkflow lowerNonAscii agent req)
        = [StaticAnalysisId; DynamicAnalysisId; AutoFixId]).
Proof.
  rewrite <- !includes_false_iff, <- includes_iff.
  unfold validateSolanaProgram, pushIf.
  destruct (includes code0 (lit "use anchor_lang::prelude::*")),
           (includes code0 (lit "use solana_program::")),
           (includes code0 (lit "#[program]")),
           (includes code0 (lit "entrypoint!")),
           (includes code0 (lit "unwrap()"));
    cbn [negb andb app errors];
    (split; [|split; [|split; [|]]]);
    try (split; [ intros H; vm_compute in H; intuition discriminate
                | intros H; vm_compute; intuition discriminate ]);
    intros lowerNonAscii agent req Hc Hne; rewrite <- Hc in Hne;
    destruct (auditorWorkflow_runs lowerNonAscii agent req Hne)
      as (a & b & c & _ & ->); reflexivity.
Qed.

(** C9.  [validateSolanaProgram] answers [isValid = true] exactly when
    its list of errors is empty; the list is a subsequence of the three
    messages in their fixed order, so it has at most three entries and no
    entry twice. *)
Theorem validateSolanaProgram_errors (code0 : JSString) :
  (isValid (validateSolanaProgram code0) = true <->
     errors (validateSolanaProgram code0) = [])
  /\ subsequence (errors (validateSolanaProgram code0))
       [missingImports; missingEntryPoint; foundUnwrap]
  /\ (List.length (errors (validateSolanaProgram code0)) <= 3)%nat
  /\ NoDup (errors (validateSolanaProgram code0)).
Proof.
  unfold validateSolanaProgram, pushIf.
  destruct (negb (includes code0 (lit "use anchor_lang::prelude::*"))
            && negb (includes code0 (lit "use solana_program::"))),
           (negb (includes code0 (lit "#[program]"))
            && negb (includes code0 (lit "entrypoint!"))),
           (includes code0 (lit "unwrap()"));
    cbn [app errors isValid List.length];
    (split; [split; [intros H; try reflexivity; discriminate
                    | intros H; try reflexivity; discriminate]|]);
    (split; [repeat constructor|]);
    (split; [lia|]);
    repeat constructor; cbn [In]; vm_compute; intuition discriminate.
Qed.

(** C10.  [staticAnalysis] builds the same prompt for a file name that is
    omitted or empty as for the file name "program.rs", and the same
    prompt for a program id that is omitted or empty as for the program id
    "Unknown": the placeholders stand in the prompt. *)
Theorem staticPrompt_placeholders (req : AuditRequest) :
  (fileName req = None \/ fileName req = Some [] ->
   staticPrompt req
   = staticPrompt {| code := code req; programId := programId req;
                     fileName := Some (lit "program.rs");
                     testCases := testCases req |}
   /\ occursIn (lit "File: program.rs" ++ nl ++ lit "Program ID: ")
               (staticPrompt req))
  /\ (programId req = None \/ programId req = Some [] ->
      staticPrompt req
      = staticPrompt {| code := code req; programId := Some (lit "Unknown");
                        fileName := fileName req;
                        testCases := testCases req |}
      /\ occursIn (lit "Program ID: Unknown" ++ nl ++ nl ++ lit "Code:")
                  (staticPrompt req)).
Proof.
  split; intros H.
  - assert (E : orDefault (fileName req) (lit "program.rs") = lit "program.rs").
    { now destruct H as [-> | ->]. }
    split.
    + unfold staticPrompt. cbn [fileName programId code]. now rewrite E.
    + exists (firstn 71 (staticPrompt emptyRequest)). eexists.
      unfold staticPrompt at 1. rewrite E.
      vm_compute (firstn _ _). rewrite <- !app_assoc. simpl. reflexivity.
  - assert (E : orDefault (programId req) (lit "Unknown") = lit "Unknown").
    { now destruct H as [-> | ->]. }
    split.
    + unfold staticPrompt. cbn [fileName programId code]. now rewrite E.
    + exists (firstn 71 (staticPrompt emptyRequest)
              ++ lit "File: " ++ orDefault (fileName req) (lit "program.rs") ++ nl).
      eexists.
      unfold staticPrompt at 1. rewrite E.
      vm_compute (firstn _ _). rewrite <- !app_assoc. simpl. reflexivity.
Qed.

(** * Concrete runs *)

Lemma lowerAsciiOnly_keeps : keepsNonAscii lowerAsciiOnly.
Proof.
  intros before c after Hc _ _. unfold lowerAsciiOnly.
  split; [discriminate | now repeat constructor].
Qed.

(** C1 at an answer that arrives in two fragments and names two
    severities. *)
Lemma staticAnalysis_severity_priority_witness :
  invoke (answering [lit "Severity: CRIT"; lit "ICAL, not high"])
         (staticPrompt sampleRequest)
    = Normal (lit "Severity: CRITICAL, not high")
  /\ keepsNonAscii lowerAsciiOnly
  /\ severityByKeyword (lit "Severity: CRITICAL, not high") = Critical
  /\ exists r,
       staticAnalysis lowerAsciiOnly
         (answering [lit "Severity: CRIT"; lit "ICAL, not high"]) sampleRequest
       = Normal r
       /\ issues r = lit "Severity: CRITICAL, not high"
       /\ severity r
          = classifySeverity lowerAsciiOnly (lit "Severity: CRITICAL, not high")
       /\ (occursIgnoringCase (lit "critical") (lit "Severity: CRITICAL, not high")
           -> severity r = Critical)
       /\ (keepsNonAscii lowerAsciiOnly ->
           severity r = severityByKeyword (lit "Severity: CRITICAL, not high")).
Proof.
  split; [reflexivity|]. split; [exact lowerAsciiOnly_keeps|].
  split; [reflexivity|].
  exact (staticAnalysis_severity_priority lowerAsciiOnly
           (answering [lit "Severity: CRIT"; lit "ICAL, not high"])
           sampleRequest (lit "Severity: CRITICAL, not high") eq_refl).
Defined.

(** C2 at an answer in the requested format: both patterns match. *)
Lemma autoFix_confidence_witness :
  invoke (answering formattedAnswer) (fixPrompt sampleStageC)
    = Normal (List.concat formattedAnswer)
  /\ exists r,
       autoFix (answering formattedAnswer) sampleStageC = Normal r
       /\ (confidence r = 85 <->
           jsMatch fixedCodePattern (List.concat formattedAnswer) <> None
           /\ jsMatch changesSummaryPattern (List.concat formattedAnswer) <> None)
       /\ (confidence r <> 85 -> confidence r = 60).
Proof.
  split; [reflexivity|].
  exact (proj1 (autoFix_confidence (answering formattedAnswer) sampleStageC)
           (List.concat formattedAnswer) eq_refl).
Defined.

(** C3: the claim fails on an answer without the marker.  The pattern
    does not match, and the [fixedCode] returned is the answer, which is
    not the input code. *)
Lemma autoFix_fallback_not_input_code :
  invoke (answering [lit "No changes "; lit "needed."]) (fixPrompt sampleStageC)
    = Normal (lit "No changes needed.")
  /\ jsMatch fixedCodePattern (lit "No changes needed.") = None
  /\ autoFix (answering [lit "No changes "; lit "needed."]) sampleStageC
     = Normal {| fixedCode := lit "No changes needed.";
                 changesSummary := lit "Code fixes applied";
                 confidence := 60 |}
  /\ lit "No changes needed." <> codeC sampleStageC.
Proof. repeat split; try reflexivity. discriminate. Qed.

(** C3, as amended, at the same answer and at a failing agent. *)
Lemma autoFix_fixedCode_fallback_witness :
  (invoke (answering [lit "No changes "; lit "needed."]) (fixPrompt sampleStageC)
     = Normal (lit "No changes needed.")
   /\ jsMatch fixedCodePattern (lit "No changes needed.") = None
   /\ exists r,
        autoFix (answering [lit "No changes "; lit "needed."]) sampleStageC = Normal r
        /\ fixedCode r = lit "No changes needed.")
  /\ (invoke (throwing quotaError) (fixPrompt sampleStageC) = Throw quotaError
      /\ exists r,
           autoFix (throwing quotaError) sampleStageC = Normal r
           /\ fixedCode r = codeC sampleStageC).
Proof.
  split.
  - split; [reflexivity|]. split; [reflexivity|].
    exact (proj1 (autoFix_fixedCode_fallback
                    (answering [lit "No changes "; lit "needed."]) sampleStageC)
             (lit "No changes needed.") eq_refl eq_refl).
  - split; [reflexivity|].
    exact (proj2 (autoFix_fixedCode_fallback (throwing quotaError) sampleStageC)
             quotaError eq_refl).
Defined.

(** C4 at an agent that throws on the first prompt only. *)
Lemma staticAnalysis_failure_degrades_witness :
  invoke (failingFirst quotaError formattedAnswer) (staticPrompt sampleRequest)
    = Throw quotaError
  /\ code sampleRequest <> []
  /\ executed (auditorWorkflow lowerAsciiOnly
                 (failingFirst quotaError formattedAnswer) sampleRequest)
     = [StaticAnalysisId; DynamicAnalysisId; AutoFixId]
  /\ exists out,
       result (auditorWorkflow lowerAsciiOnly
                 (failingFirst quotaError formattedAnswer) sampleRequest)
       = Success out
       /\ out_severity out = Medium
       /\ out_issueCount out = 0
       /\ occursIn (message quotaError) (out_issues out).
Proof.
  split; [reflexivity|]. split; [discriminate|].
  refine (proj2 (staticAnalysis_failure_degrades lowerAsciiOnly
                   (failingFirst quotaError formattedAnswer)
                   sampleRequest quotaError eq_refl) _).
  discriminate.
Defined.

(** C5: the claim fails at an agent that throws.  The step returns, with
    no test result at all. *)
Lemma dynamicAnalysis_failure_no_tests :
  invoke (throwing quotaError) (dynamicPrompt sampleStageB) = Throw quotaError
  /\ exists r,
       dynamicAnalysis (throwing quotaError) sampleStageB = Normal r
       /\ simulationReport r = lit "Dynamic analysis failed: quota exceeded"
       /\ testResults r = []
       /\ List.length (testResults r) <> 3%nat.
Proof.
  split; [reflexivity|]. eexists. split; [reflexivity|].
  repeat split. discriminate.
Qed.

(** C5, as amended, at an answering agent and at one that throws. *)
Lemma dynamicAnalysis_testResults_witness :
  (invoke (answering [lit "All instructions are properly authorized."])
          (dynamicPrompt sampleStageB)
     = Normal (lit "All instructions are properly authorized.")
   /\ exists r,
        dynamicAnalysis (answering [lit "All instructions are properly authorized."])
                        sampleStageB = Normal r
        /\ List.length (testResults r) = 3%nat
        /\ map testCase (testResults r)
           = [lit "Authorization Check Test"; lit "PDA Validation Test";
              lit "Integer Overflow Test"])
  /\ (invoke (throwing quotaError) (dynamicPrompt sampleStageB) = Throw quotaError
      /\ exists r,
           dynamicAnalysis (throwing quotaError) sampleStageB = Normal r
           /\ testResults r = []).
Proof.
  split.
  - split; [reflexivity|].
    exact (proj1 (dynamicAnalysis_testResults
                    (answering [lit "All instructions are properly authorized."])
                    sampleStageB)
             (lit "All instructions are properly authorized.") eq_refl).
  - split; [reflexivity|].
    exact (proj2 (dynamicAnalysis_testResults (throwing quotaError) sampleStageB)
             quotaError eq_refl).
Defined.

(** C6 at an answer with the first phrase in it, the second in another
    letter case, and the third absent. *)
Lemma dynamicAnalysis_passed_flags_witness :
  invoke (answering [lit "Calls are properly authorized; pda correctly validated."])
         (dynamicPrompt sampleStageB)
    = Normal (lit "Calls are properly authorized; pda correctly validated.")
  /\ map passed (threeTests (lit "Calls are properly authorized; pda correctly validated."))
     = [true; false; false]
  /\ exists auth pda overflow,
       dynamicAnalysis
         (answering [lit "Calls are properly authorized; pda correctly validated."])
         sampleStageB
       = Normal {| simulationReport :=
                     lit "Calls are properly authorized; pda correctly validated.";
                   testResults := [auth; pda; overflow] |}
       /\ testCase auth = lit "Authorization Check Test"
       /\ (passed auth = true <->
           occursIn (lit "properly authorized")
             (lit "Calls are properly authorized; pda correctly validated."))
       /\ testCase pda = lit "PDA Validation Test"
       /\ (passed pda = true <->
           occursIn (lit "PDA correctly validated")
             (lit "Calls are properly authorized; pda correctly validated."))
       /\ testCase overflow = lit "Integer Overflow Test"
       /\ (passed overflow = true <->
           occursIn (lit "safe arithmetic")
             (lit "Calls are properly authorized; pda correctly validated.")).
Proof.
  split; [reflexivity|]. split; [reflexivity|].
  exact (dynamicAnalysis_passed_flags
           (answering [lit "Calls are properly authorized; pda correctly validated."])
           sampleStageB
           (lit "Calls are properly authorized; pda correctly validated.") eq_refl).
Defined.

(** C7 at the empty request and at the sample request. *)
Lemma auditInput_rejects_empty_code_witness :
  (code emptyRequest = []
   /\ auditInput emptyRequest = Invalid [lit "Code cannot be empty"]
   /\ auditorWorkflow lowerAsciiOnly (answering formattedAnswer) emptyRequest
      = {| executed := []; result := Rejected [lit "Code cannot be empty"] |})
  /\ (code sampleRequest <> [] /\ auditInput sampleRequest = Valid sampleRequest).
Proof.
  split.
  - split; [reflexivity|].
    destruct (proj1 (auditInput_rejects_empty_code emptyRequest) eq_refl) as [H1 H2].
    split; [exact H1 | exact (H2 lowerAsciiOnly (answering formattedAnswer))].
  - assert (Hne : code sampleRequest <> []) by discriminate.
    split; [exact Hne|].
    exact (proj2 (auditInput_rejects_empty_code sampleRequest) Hne).
Defined.

(** C8 at the code of the sample request: the helper finds it invalid,
    and the workflow runs its three steps on it. *)
Lemma validateSolanaProgram_lexical_witness :
  validateSolanaProgram (code sampleRequest)
    = {| isValid := false; errors := [missingImports; missingEntryPoint] |}
  /\ code sampleRequest <> []
  /\ executed (auditorWorkflow lowerAsciiOnly (answering formattedAnswer) sampleRequest)
     = [StaticAnalysisId; DynamicAnalysisId; AutoFixId].
Proof.
  split; [reflexivity|].
  assert (Hne : code sampleRequest <> []) by discriminate.
  split; [exact Hne|].
  exact (proj2 (proj2 (proj2 (validateSolanaProgram_lexical (code sampleRequest))))
           lowerAsciiOnly (answering formattedAnswer) sampleRequest eq_refl Hne).
Defined.

(** C10 at the sample request: its file name is omitted and its program
    id is the empty string. *)
Lemma staticPrompt_placeholders_witness :
  (fileName sampleRequest = None \/ fileName sampleRequest = Some [])
  /\ (programId sampleRequest = None \/ programId sampleRequest = Some [])
  /\ occursIn (lit "File: program.rs" ++ nl ++ lit "Program ID: ")
              (staticPrompt sampleRequest)
  /\ occursIn (lit "Program ID: Unknown" ++ nl ++ nl ++ lit "Code:")
              (staticPrompt sampleRequest).
Proof.
  assert (Hf : fileName sampleRequest = None \/ fileName sampleRequest = Some [])
    by (left; reflexivity).
  assert (Hp : programId sampleRequest = None \/ programId sampleRequest = Some [])
    by (right; reflexivity).
  split; [exact Hf|]. split; [exact Hp|]. split.
  - exact (proj2 (proj1 (staticPrompt_placeholders sampleRequest) Hf)).
  - exact (proj2 (proj2 (staticPrompt_placeholders sampleRequest) Hp)).
Defined.

(** ** Examples *)

Example lower_mixed :
  toLowerCase lowerAsciiOnly (lit "CRITICAL: High-Risk") = lit "critical: high-risk".
Proof. reflexivity. Qed.

Example lower_dotted_capital_i :
  toLowerCase lowerAsciiOnly [67; 82; 0x130; 84] = [99; 114; 0x69; 0x307; 116].
Proof. reflexivity. Qed.

Example includes_mid : includes (lit "a high risk") (lit "high") = true.
Proof. reflexivity. Qed.

Example includes_case : includes (lit "a High risk") (lit "high") = false.
Proof. reflexivity. Qed.

Example severity_high_before_medium :
  classifySeverity lowerAsciiOnly (lit "Medium to HIGH risk") = High.
Proof. reflexivity. Qed.

Example severity_default :
  classifySeverity lowerAsciiOnly (lit "No findings.") = Low.
Proof. reflexivity. Qed.

Example issueCount_counts_markers :
  countMatches true issueMarkerPattern 0
    (lit "Issue 1: a Vulnerability. " ++ [0xD83D; 0xDEA8] ++ lit " issues") = 4.
Proof. reflexivity. Qed.

Example autoFix_formatted :
  autoFix (answering formattedAnswer) sampleStageC
  = Normal {| fixedCode := lit "pub fn update() {}";
              changesSummary := lit "- added signer check";
              confidence := 85 |}.
Proof. reflexivity. Qed.

Example autoFix_summary_only :
  autoFix (answering [lit "CHANGES_SUMMARY: none"]) sampleStageC
  = Normal {| fixedCode := lit "CHANGES_SUMMARY: none";
              changesSummary := lit "none";
              confidence := 60 |}.
Proof. reflexivity. Qed.

Example autoFix_broken_stream :
  autoFix (breaking formattedAnswer quotaError) sampleStageC
  = Normal {| fixedCode := codeC sampleStageC;
              changesSummary := lit "Auto-fix failed: quota exceeded";
              confidence := 0 |}.
Proof. reflexivity. Qed.

(** * Further properties of the steps *)

(** ** Every step returns *)


(** ** Fragments *)

Lemma invoke_same_text (agent1 agent2 : Agent) (prompt : JSString)
    (fs1 fs2 : list JSString) :
  agent1 (userMessage prompt) = Normal {| fragments := fs1; failure := None |} ->
  agent2 (userMessage prompt) = Normal {| fragments := fs2; failure := None |} ->
  List.concat fs1 = List.concat fs2 ->
  invoke agent1 prompt = invoke agent2 prompt.
Proof.
  intros H1 H2 E.
  rewrite (invoke_answer agent1 prompt fs1 H1), (invoke_answer agent2 prompt fs2 H2).
  now rewrite E.
Qed.

(** X2.  A step sees the answer only as the text its fragments add up
    to: two answers to the prompt of a step that are cut into fragments
    differently give the same result. *)
Theorem steps_ignore_fragment_boundaries
    (lowerNonAscii : UnicodeLower) (agent1 agent2 : Agent)
    (fs1 fs2 : list JSString) :
  List.concat fs1 = List.concat fs2 ->
  (forall a,
     agent1 (userMessage (staticPrompt a))
       = Normal {| fragments := fs1; failure := None |} ->
     agent2 (userMessage (staticPrompt a))
       = Normal {| fragments := fs2; failure := None |} ->
     staticAnalysis lowerNonAscii agent1 a = staticAnalysis lowerNonAscii agent2 a)
  /\ (forall b,
        agent1 (userMessage (dynamicPrompt b))
          = Normal {| fragments := fs1; failure := None |} ->
        agent2 (userMessage (dynamicPrompt b))
          = Normal {| fragments := fs2; failure := None |} ->
        dynamicAnalysis agent1 b = dynamicAnalysis agent2 b)
  /\ (forall c,
        agent1 (userMessage (fixPrompt c))
          = Normal {| fragments := fs1; failure := None |} ->
        agent2 (userMessage (fixPrompt c))
          = Normal {| fragments := fs2; failure := None |} ->
        autoFix agent1 c = autoFix agent2 c).
Proof.
  intros E. repeat split.
  - intros a H1 H2. rewrite !staticAnalysis_invoke.
    now rewrite (invoke_same_text agent1 agent2 _ fs1 fs2 H1 H2 E).
  - intros b H1 H2. rewrite !dynamicAnalysis_invoke.
    now rewrite (invoke_same_text agent1 agent2 _ fs1 fs2 H1 H2 E).
  - intros c H1 H2. rewrite !autoFix_invoke.
    now rewrite (invoke_same_text agent1 agent2 _ fs1 fs2 H1 H2 E).
Qed.

(** X3.  A stream that breaks is a failed call, however much of the
    answer had arrived: the fragments received before the error leave no
    trace in the result, which is the one built from the error. *)
Theorem broken_stream_discards_fragments
    (lowerNonAscii : UnicodeLower) (agent : Agent)
    (fs : list JSString) (e : JSError) :
  (forall a,
     agent (userMessage (staticPrompt a))
       = Normal {| fragments := fs; failure := Some e |} ->
     staticAnalysis lowerNonAscii agent a
     = Normal {| issues := lit "Static analysis failed: " ++ message e;
                 severity := Medium;
                 issueCount := 0 |})
  /\ (forall b,
        agent (userMessage (dynamicPrompt b))
          = Normal {| fragments := fs; failure := Some e |} ->
        dynamicAnalysis agent b
        = Normal {| simulationReport := lit "Dynamic analysis failed: " ++ message e;
                    testResults := [] |})
  /\ (forall c,
        agent (userMessage (fixPrompt c))
          = Normal {| fragments := fs; failure := Some e |} ->
        autoFix agent c
        = Normal {| fixedCode := codeC c;
                    changesSummary := lit "Auto-fix failed: " ++ message e;
                    confidence := 0 |}).
Proof.
  repeat split.
  - intros a H. rewrite staticAnalysis_invoke.
    now rewrite (proj2 (invoke_throw agent _ e) (or_intror (ex_intro _ fs H))).
  - intros b H. rewrite dynamicAnalysis_invoke.
    now rewrite (proj2 (invoke_throw agent _ e) (or_intror (ex_intro _ fs H))).
  - intros c H. rewrite autoFix_invoke.
    now rewrite (proj2 (invoke_throw agent _ e) (or_intror (ex_intro _ fs H))).
Qed.

(** ** Severity *)

Lemma toLowerCase_ascii (lowerNonAscii : UnicodeLower) (text : JSString) :
  Forall (fun c => c < 128) text ->
  toLowerCase lowerNonAscii text = map asciiLower text.
Proof.
  intros H. unfold toLowerCase.
  rewrite <- (app_nil_r text) at 1.
  rewrite (lowerFrom_ascii lowerNonAscii text [] [] H). simpl.
  now rewrite app_nil_r.
Qed.

Lemma classifySeverity_byKeyword (lowerNonAscii : UnicodeLower) (text : JSString) :
  keepsNonAscii lowerNonAscii ->
  classifySeverity lowerNonAscii text = severityByKeyword text.
Proof.
  intros HL. unfold classifySeverity, severityByKeyword.
  now rewrite !(includes_toLowerCase_eq lowerNonAscii) by (assumption || reflexivity).
Qed.

(** X4.  On an answer made of ASCII units only, the severity is the
    case-insensitive keyword rule whatever the Unicode tables are: the
    lower-cased text is the text with A-Z replaced by a-z, unit by unit. *)
Theorem staticAnalysis_severity_ascii
    (lowerNonAscii : UnicodeLower) (agent : Agent)
    (inputData : AuditRequest) (text : JSString) :
  invoke agent (staticPrompt inputData) = Normal text ->
  Forall (fun c => c < 128) text ->
  toLowerCase lowerNonAscii text = map asciiLower text
  /\ exists r,
       staticAnalysis lowerNonAscii agent inputData = Normal r
       /\ severity r = severityByKeyword text.
Proof.
  intros Hinv Hascii.
  pose proof (toLowerCase_ascii lowerNonAscii text Hascii) as E.
  split; [exact E|].
  rewrite staticAnalysis_invoke, Hinv. eexists; split; [reflexivity|].
  cbn [severity]. unfold classifySeverity, severityByKeyword, containsIgnoringCase.
  now rewrite E.
Qed.

Lemma occursIgnoringCase_extend (kw a text c : JSString) :
  occursIgnoringCase kw text -> occursIgnoringCase kw (a ++ text ++ c).
Proof.
  intros (x & m & y & -> & Hm). exists (a ++ x), m, (y ++ c).
  split; [|exact Hm]. now rewrite <- !app_assoc.
Qed.

Lemma containsIgnoringCase_extend (kw a text c : JSString) :
  containsIgnoringCase text kw = true ->
  containsIgnoringCase (a ++ text ++ c) kw = true.
Proof.
  rewrite !containsIgnoringCase_iff. apply occursIgnoringCase_extend.
Qed.

(** X5.  More text never lowers the severity: the severity of a text is
    at least the severity of each of its parts, whatever stands before
    and after the part. *)
Theorem severity_never_lowered_by_more_text
    (lowerNonAscii : UnicodeLower) (before text after : JSString) :
  keepsNonAscii lowerNonAscii ->
  severityRank (classifySeverity lowerNonAscii text)
  <= severityRank (classifySeverity lowerNonAscii (before ++ text ++ after)).
Proof.
  intros HL. rewrite !(classifySeverity_byKeyword lowerNonAscii) by assumption.
  unfold severityByKeyword.
  pose proof (containsIgnoringCase_extend (lit "critical") before text after) as Hc.
  pose proof (containsIgnoringCase_extend (lit "high") before text after) as Hh.
  pose proof (containsIgnoringCase_extend (lit "medium") before text after) as Hm.
  destruct (containsIgnoringCase text (lit "critical")),
           (containsIgnoringCase text (lit "high")),
           (containsIgnoringCase text (lit "medium"));
    try rewrite (Hc eq_refl); try rewrite (Hh eq_refl); try rewrite (Hm eq_refl);
    destruct (containsIgnoringCase (before ++ text ++ after) (lit "critical")),
             (containsIgnoringCase (before ++ text ++ after) (lit "high")),
             (containsIgnoringCase (before ++ text ++ after) (lit "medium"));
    cbn [severityRank]; lia.
Qed.

(** ** The issue count *)

Lemma canonicalize_letter (c k : N) :
  97 <= k <= 122 ->
  (canonicalize true c =? canonicalize true k) = (asciiLower c =? k).
Proof.
  intros Hk. unfold canonicalize, asciiLower. cbn [andb].
  destruct (N.leb_spec 97 c), (N.leb_spec c 122), (N.leb_spec 97 k),
           (N.leb_spec k 122), (N.leb_spec 65 c), (N.leb_spec c 90);
    cbn [andb]; try lia;
    match goal with
    | |- (?x =? ?y) = (?u =? ?v) =>
        destruct (N.eqb_spec x y), (N.eqb_spec u v); try reflexivity; lia
    end.
Qed.

Lemma canonicalize_high (c k : N) :
  122 < k ->
  (canonicalize true c =? canonicalize true k) = (c =? k).
Proof.
  intros Hk. unfold canonicalize. cbn [andb].
  destruct (N.leb_spec 97 c), (N.leb_spec c 122), (N.leb_spec 97 k),
           (N.leb_spec k 122);
    cbn [andb]; try lia;
    match goal with
    | |- (?x =? ?y) = (?u =? ?v) =>
        destruct (N.eqb_spec x y), (N.eqb_spec u v); try reflexivity; lia
    end.
Qed.

(** Under [i], a word of small letters matches its spellings in every
    letter case. *)
Lemma matchChars_letters (p s rest : JSString) :
  Forall (fun k => 97 <= k <= 122) p ->
  matchChars true p s = Some rest <->
  exists m, s = m ++ rest /\ map asciiLower m = p.
Proof.
  intros Hp; revert s; induction Hp as [|k p Hk _ IH]; intros s.
  - simpl. split.
    + intros [= ->]. now exists [].
    + intros (m & -> & Hm). apply map_eq_nil in Hm. now subst m.
  - cbn [matchChars]. destruct s as [|c s].
    + split; [discriminate|]. intros (m & Hs & Hm).
      destruct m; [discriminate | discriminate].
    + rewrite (canonicalize_letter c k Hk).
      destruct (N.eqb_spec (asciiLower c) k) as [Ek | Ek].
      * rewrite IH. split.
        -- intros (m & -> & Hm). exists (c :: m). simpl. now rewrite Ek, Hm.
        -- intros (m & Hs & Hm). destruct m as [|c' m]; [discriminate|].
           simpl in Hs, Hm. injection Hs as -> ->. injection Hm as _ Hm.
           now exists m.
      * split; [discriminate|]. intros (m & Hs & Hm).
        destruct m as [|c' m]; [discriminate|].
        simpl in Hs, Hm. injection Hs as -> ->. injection Hm as Hm _. congruence.
Qed.

Lemma matchChars_high (p s rest : JSString) :
  Forall (fun k => 122 < k) p ->
  matchChars true p s = Some rest <-> s = p ++ rest.
Proof.
  intros Hp; revert s; induction Hp as [|k p Hk _ IH]; intros s.
  - simpl. split; [now intros [= ->] | now intros ->].
  - cbn [matchChars]. destruct s as [|c s]; [split; discriminate|].
    rewrite (canonicalize_high c k Hk).
    destruct (N.eqb_spec c k) as [-> | Ne].
    + rewrite IH. split; [now intros -> | now intros [= ->]].
    + split; [discriminate | intros [= -> _]; congruence].
Qed.

Lemma letters_vulnerability : Forall (fun k => 97 <= k <= 122) (lit "vulnerability").
Proof. repeat constructor; cbn; lia. Qed.

Lemma letters_issue : Forall (fun k => 97 <= k <= 122) (lit "issue").
Proof. repeat constructor; cbn; lia. Qed.

Lemma high_alarmEmoji : Forall (fun k => 122 < k) alarmEmoji.
Proof. repeat constructor; cbn; lia. Qed.

(** Where the pattern of the issue count matches at the front. *)
Lemma issueMarkerPattern_at (s : JSString) :
  matchAt true issueMarkerPattern s <> None <->
  exists m rest,
    s = m ++ rest
    /\ (m = alarmEmoji
        \/ map asciiLower m = lit "vulnerability"
        \/ map asciiLower m = lit "issue").
Proof.
  unfold matchAt, issueMarkerPattern. cbn [matchRe]. fold alarmEmoji.
  destruct (matchChars true alarmEmoji s) as [r1|] eqn:E1.
  { apply (matchChars_high _ _ _ high_alarmEmoji) in E1.
    split; [intros _ | discriminate]. exists alarmEmoji, r1. auto. }
  destruct (matchChars true (lit "vulnerability") s) as [r2|] eqn:E2.
  { apply (matchChars_letters _ _ _ letters_vulnerability) in E2 as (m & -> & Hm).
    split; [intros _ | discriminate]. exists m, r2. auto. }
  destruct (matchChars true (lit "issue") s) as [r3|] eqn:E3.
  { apply (matchChars_letters _ _ _ letters_issue) in E3 as (m & -> & Hm).
    split; [intros _ | discriminate]. exists m, r3. auto. }
  split; [congruence|]. intros (m & rest & -> & [-> | [Hm | Hm]]); exfalso.
  - assert (H : matchChars true alarmEmoji (alarmEmoji ++ rest) = Some rest)
      by now apply (matchChars_high _ _ _ high_alarmEmoji).
    congruence.
  - assert (H : matchChars true (lit "vulnerability") (m ++ rest) = Some rest)
      by (apply (matchChars_letters _ _ _ letters_vulnerability); eauto).
    congruence.
  - assert (H : matchChars true (lit "issue") (m ++ rest) = Some rest)
      by (apply (matchChars_letters _ _ _ letters_issue); eauto).
    congruence.
Qed.

(** A global match counts nothing exactly when the pattern matches at no
    index. *)
Lemma countMatches_zero (ignoreCase : bool) (r : Regex) (s : JSString) :
  countMatches ignoreCase r 0 s = 0 <->
  forall a t, s = a ++ t -> matchAt ignoreCase r t = None.
Proof.
  induction s as [|c s IH]; cbn [countMatches].
  - destruct (matchAt ignoreCase r []) as [m|] eqn:E; split.
    + discriminate.
    + intros H. specialize (H [] [] eq_refl). congruence.
    + intros _ a t Hat. destruct a, t; try discriminate. exact E.
    + reflexivity.
  - destruct (matchAt ignoreCase r (c :: s)) as [[rest cap]|] eqn:E; split.
    + lia.
    + intros H. specialize (H [] (c :: s) eq_refl). congruence.
    + intros H a t Hat. destruct a as [|x a]; simpl in Hat.
      * now subst t.
      * injection Hat as -> ->. rewrite IH in H. now apply (H a t).
    + intros H. apply IH. intros a t ->. now apply (H (c :: a) t).
Qed.

(** X6.  The issue count of a successful run is 0 exactly when the
    answer has none of the three markers in it: neither the alarm emoji,
    nor "vulnerability" nor "issue" in any letter case. *)
Theorem issueCount_zero_iff_no_marker
    (lowerNonAscii : UnicodeLower) (agent : Agent)
    (inputData : AuditRequest) (text : JSString) :
  invoke agent (staticPrompt inputData) = Normal text ->
  exists r,
    staticAnalysis lowerNonAscii agent inputData = Normal r
    /\ (issueCount r = 0 <->
        ~ occursIn alarmEmoji text
        /\ ~ occursIgnoringCase (lit "vulnerability") text
        /\ ~ occursIgnoringCase (lit "issue") text).
Proof.
  intros Hinv. rewrite staticAnalysis_invoke, Hinv.
  eexists; split; [reflexivity|]. cbn [issueCount].
  rewrite countMatches_zero. split.
  - intros H. repeat split.
    + intros (a & b & ->).
      apply (proj2 (issueMarkerPattern_at (alarmEmoji ++ b)));
        [exists alarmEmoji, b; auto | now apply (H a)].
    + intros (a & m & b & -> & Hm).
      apply (proj2 (issueMarkerPattern_at (m ++ b)));
        [exists m, b; auto | now apply (H a)].
    + intros (a & m & b & -> & Hm).
      apply (proj2 (issueMarkerPattern_at (m ++ b)));
        [exists m, b; auto | now apply (H a)].
  - intros (He & Hv & Hi) a t ->.
    destruct (matchAt true issueMarkerPattern t) as [m0|] eqn:E; [|reflexivity].
    exfalso.
    assert (Hne : matchAt true issueMarkerPattern t <> None) by congruence.
    apply issueMarkerPattern_at in Hne as (m & rest & -> & [-> | [Hm | Hm]]).
    + apply He. now exists a, rest.
    + apply Hv. now exists a, m, rest.
    + apply Hi. now exists a, m, rest.
Qed.

(** ** What the two patterns of [autoFix] extract *)

(** A lazy star stops at the first split on which the continuation
    succeeds. *)
Lemma starLazy_first (cls : N -> bool) (s : JSString)
    (k : JSString -> option MatchState) (m : MatchState) :
  starLazy cls s k = Some m ->
  exists run rest,
    s = run ++ rest /\ forallb cls run = true /\ k rest = Some m
    /\ forall r1 r2, run = r1 ++ r2 -> r2 <> [] -> k (r2 ++ rest) = None.
Proof.
  induction s as [|c s IH]; simpl.
  - destruct (k []) eqn:Hk; [|discriminate].
    intros [= <-]. exists [], []. repeat split; auto.
    intros r1 r2 H Hne. destruct r1, r2; try discriminate. congruence.
  - destruct (k (c :: s)) eqn:Hk.
    + intros [= <-]. exists [], (c :: s). repeat split; auto.
      intros r1 r2 H Hne. destruct r1, r2; try discriminate. congruence.
    + destruct (cls c) eqn:Hc; [|discriminate].
      intros H. destruct (IH H) as (run & rest & -> & Hrun & Hk' & Hmin).
      exists (c :: run), rest. simpl. rewrite Hc, Hrun. repeat split; auto.
      intros r1 r2 E Hne. destruct r1 as [|x r1]; simpl in E.
      * subst r2. exact Hk.
      * injection E as _ E. now apply (Hmin r1 r2).
Qed.

(** A greedy star in front of a continuation that cannot fail takes the
    whole run. *)
Lemma starGreedy_longest (cls : N -> bool) (s : JSString)
    (k : JSString -> option MatchState) (m : MatchState) :
  (forall t, k t <> None) ->
  starGreedy cls s k = Some m ->
  exists run rest,
    s = run ++ rest /\ forallb cls run = true /\ k rest = Some m
    /\ forall c rest', rest = c :: rest' -> cls c = false.
Proof.
  intros Hk; induction s as [|c s IH]; simpl.
  - intros H. exists [], []. repeat split; auto. discriminate.
  - destruct (cls c) eqn:Hc.
    + pose proof (starGreedy_complete cls [] s k eq_refl (Hk s)) as Hs.
      simpl in Hs. destruct (starGreedy cls s k) as [m'|]; [|congruence].
      intros [= <-]. destruct (IH eq_refl) as (run & rest & -> & Hrun & Hk' & Hend).
      exists (c :: run), rest. simpl. rewrite Hc, Hrun. auto.
    + intros H. exists [], (c :: s). repeat split; auto.
      intros c' rest' [= <- _]. exact Hc.
Qed.

Lemma consumed_app (run rest : JSString) : consumed (run ++ rest) rest = run.
Proof.
  unfold consumed. rewrite length_app.
  replace (List.length run + List.length rest - List.length rest)%nat
    with (List.length run) by lia.
  rewrite firstn_app, firstn_all.
  replace (List.length run - List.length run)%nat with 0%nat by lia.
  simpl. now rewrite app_nil_r.
Qed.

(** [s.match(r)] returns the groups of a match at the front of a
    suffix of [s]. *)
Lemma jsMatch_at (r : Regex) (s : JSString) (cap : Captured) :
  jsMatch r s = Some cap ->
  exists a t rest, s = a ++ t /\ matchAt false r t = Some (rest, cap).
Proof.
  induction s as [|c s IH]; cbn [jsMatch].
  - destruct (matchAt false r []) as [[rest cap0]|] eqn:E; [|discriminate].
    intros [= <-]. now exists [], [], rest.
  - destruct (matchAt false r (c :: s)) as [[rest cap0]|] eqn:E.
    + intros [= <-]. now exists [], (c :: s), rest.
    + intros H. destruct (IH H) as (a & t & rest & -> & Hm).
      now exists (c :: a), t, rest.
Qed.

Lemma allUnits (s : JSString) : forallb anyUnit s = true.
Proof. induction s as [|c s IH]; [reflexivity|]. simpl. now rewrite anyUnit_true. Qed.

(** A match of the "FIXED_CODE:" pattern, in full: the group is the text
    between the opening fence and the first closing fence after it. *)
Lemma fixedCodePattern_at (t rest : JSString) (cap : Captured) :
  matchAt false fixedCodePattern t = Some (rest, cap) ->
  exists space body,
    t = lit "FIXED_CODE:" ++ space ++ (lit "```rust" ++ nl)
          ++ body ++ (nl ++ lit "```") ++ rest
    /\ forallb isSpace space = true
    /\ cap = Some body
    /\ ~ occursIn (nl ++ lit "```") body.
Proof.
  unfold matchAt, fixedCodePattern. cbn [matchRe]. intros Hm.
  destruct (matchChars false (lit "FIXED_CODE:") t) as [t1|] eqn:E1;
    [|discriminate].
  apply matchChars_iff in E1. subst t.
  apply starGreedy_sound in Hm as (space & t2 & -> & Hspace & Hm).
  destruct (matchChars false (lit "```rust" ++ nl) t2) as [t3|] eqn:E3;
    [|discriminate].
  apply matchChars_iff in E3. subst t2.
  apply starLazy_first in Hm as (body & t4 & -> & _ & Hm & Hmin).
  destruct (matchChars false (nl ++ lit "```") t4) as [b|] eqn:E5;
    [|discriminate].
  apply matchChars_iff in E5. subst t4.
  injection Hm as <- <-. rewrite consumed_app.
  exists space, body. repeat split; auto.
  intros (x & y & ->).
  assert (Hne : (nl ++ lit "```") ++ y <> []) by discriminate.
  specialize (Hmin x ((nl ++ lit "```") ++ y) eq_refl Hne).
  replace (matchChars false (nl ++ lit "```")
             (((nl ++ lit "```") ++ y) ++ (nl ++ lit "```") ++ b))
    with (Some (y ++ (nl ++ lit "```") ++ b)) in Hmin; [discriminate|].
  symmetry. apply matchChars_iff. now rewrite <- app_assoc.
Qed.

Lemma summaryTail_some (start tail rest : JSString) (cap : Captured) :
  summaryTail start tail = Some (rest, cap) ->
  cap = Some (consumed start tail) /\ summaryEnd tail rest.
Proof.
  unfold summaryTail, summaryEnd. cbn [matchRe].
  destruct (matchChars false (nl ++ nl) tail) as [r1|] eqn:E1.
  { apply matchChars_iff in E1. intros [= <- <-]. auto. }
  destruct (matchChars false nl tail) as [r2|] eqn:E2.
  { apply matchChars_iff in E2. destruct r2 as [|x r2].
    - intros [= <- <-]. subst tail. auto.
    - subst tail. discriminate. }
  destruct tail; [|discriminate]. intros [= <- <-]. auto.
Qed.

Lemma summaryTail_none (start tail : JSString) :
  summaryTail start tail = None -> forall rest, ~ summaryEnd tail rest.
Proof.
  unfold summaryTail, summaryEnd. cbn [matchRe].
  intros H rest [-> | [[-> ->] | [-> ->]]]; revert H.
  - replace (matchChars false (nl ++ nl) (nl ++ nl ++ rest)) with (Some rest)
      by (symmetry; apply matchChars_iff; now rewrite <- app_assoc).
    discriminate.
  - vm_compute. discriminate.
  - vm_compute. discriminate.
Qed.

Lemma summaryTail_reached (t : JSString) :
  starLazy anyUnit t (summaryTail t) <> None.
Proof.
  pose proof (starLazy_complete anyUnit t [] (summaryTail t) (allUnits t)) as H.
  rewrite app_nil_r in H. apply H. unfold summaryTail. cbn. discriminate.
Qed.

(** A match of the "CHANGES_SUMMARY:" pattern, in full: the white space
    after the marker is skipped, and the group runs to the first place
    where the text can end. *)
Lemma changesSummaryPattern_at (t rest : JSString) (cap : Captured) :
  matchAt false changesSummaryPattern t = Some (rest, cap) ->
  exists space body tail,
    t = lit "CHANGES_SUMMARY:" ++ space ++ body ++ tail
    /\ forallb isSpace space = true
    /\ cap = Some body
    /\ summaryEnd tail rest
    /\ (forall c s, body = c :: s -> isSpace c = false)
    /\ ~ occursIn (nl ++ nl) body
    /\ (forall x, body <> x ++ nl).
Proof.
  unfold matchAt, changesSummaryPattern. cbn [matchRe]. intros Hm.
  destruct (matchChars false (lit "CHANGES_SUMMARY:") t) as [t1|] eqn:E1;
    [|discriminate].
  apply matchChars_iff in E1. subst t.
  change (starGreedy isSpace t1
            (fun t2 => starLazy anyUnit t2 (summaryTail t2)) = Some (rest, cap))
    in Hm.
  apply starGreedy_longest in Hm as (space & t2 & -> & Hspace & Hm & Hend);
    [|exact summaryTail_reached].
  apply starLazy_first in Hm as (body & tail & -> & _ & Hm & Hmin).
  apply summaryTail_some in Hm as [-> Htail]. rewrite consumed_app.
  exists space, body, tail. repeat split; auto.
  - intros c s ->. now apply (Hend c (s ++ tail)).
  - intros (x & y & ->).
    assert (Hne : (nl ++ nl) ++ y <> []) by discriminate.
    specialize (Hmin x ((nl ++ nl) ++ y) eq_refl Hne).
    apply (summaryTail_none _ _ Hmin (y ++ tail)). left.
    now rewrite <- !app_assoc.
  - intros x ->.
    assert (Hne : nl <> []) by discriminate.
    specialize (Hmin x nl eq_refl Hne).
    destruct Htail as [-> | [[-> ->] | [-> ->]]].
    + apply (summaryTail_none _ _ Hmin (nl ++ rest)). now left.
    + apply (summaryTail_none _ _ Hmin []). now left.
    + apply (summaryTail_none _ _ Hmin []). right. now left.
Qed.

(** X7.  The confidence of a successful run is 85 exactly when the
    answer has both marks of the requested format: somewhere
    "FIXED_CODE:", white space, a fence opened by "```rust" and a line
    break and closed by a line break and "```"; and somewhere the marker
    "CHANGES_SUMMARY:". *)
Theorem autoFix_confidence_by_format
    (agent : Agent) (inputData : StageCInput) (response : JSString) :
  invoke agent (fixPrompt inputData) = Normal response ->
  exists r,
    autoFix agent inputData = Normal r
    /\ (confidence r = 85 <->
        (exists a space body b,
           response = a ++ lit "FIXED_CODE:" ++ space ++ (lit "```rust" ++ nl)
                        ++ body ++ (nl ++ lit "```") ++ b
           /\ forallb isSpace space = true)
        /\ occursIn (lit "CHANGES_SUMMARY:") response).
Proof.
  intros Hinv. rewrite autoFix_invoke, Hinv.
  eexists; split; [reflexivity|].
  rewrite <- fixedCodePattern_matches, <- changesSummaryPattern_matches.
  unfold extractFix; cbn [confidence].
  destruct (jsMatch fixedCodePattern response),
           (jsMatch changesSummaryPattern response);
    split; try discriminate; try (intros [H1 H2]; congruence).
  intros _. split; discriminate.
Qed.

(** X8.  When the "FIXED_CODE:" pattern matches, the [fixedCode]
    returned is the text between the opening fence after the marker and
    the first closing fence: it stands in the answer between the two, and
    has no closing fence (a line break and "```") inside it. *)
Theorem autoFix_extracts_up_to_first_fence
    (agent : Agent) (inputData : StageCInput) (response : JSString) :
  invoke agent (fixPrompt inputData) = Normal response ->
  jsMatch fixedCodePattern response <> None ->
  exists r a space b,
    autoFix agent inputData = Normal r
    /\ response = a ++ lit "FIXED_CODE:" ++ space ++ (lit "```rust" ++ nl)
                    ++ fixedCode r ++ (nl ++ lit "```") ++ b
    /\ forallb isSpace space = true
    /\ ~ occursIn (nl ++ lit "```") (fixedCode r).
Proof.
  intros Hinv Hmatch. rewrite autoFix_invoke, Hinv.
  destruct (jsMatch fixedCodePattern response) as [cap|] eqn:E; [|congruence].
  destruct (jsMatch_at _ _ _ E) as (a & t & b & -> & Hat).
  apply fixedCodePattern_at in Hat as (space & body & -> & Hspace & -> & Hno).
  eexists _, a, space, b. split; [reflexivity|].
  unfold extractFix; cbn [fixedCode]. rewrite E. cbn [group1]. auto.
Qed.

(** X9.  When the marker "CHANGES_SUMMARY:" occurs in the answer, the
    [changesSummary] returned is the text after the marker and the white
    space that follows it, up to the first blank line, or else up to the
    end of the answer without a last line break: it does not begin with
    white space, has no blank line in it and does not end with a line
    break.  When the marker does not occur, the summary is the
    placeholder and the confidence is 60. *)
Theorem autoFix_summary_extraction
    (agent : Agent) (inputData : StageCInput) (response : JSString) :
  invoke agent (fixPrompt inputData) = Normal response ->
  exists r,
    autoFix agent inputData = Normal r
    /\ (occursIn (lit "CHANGES_SUMMARY:") response ->
        (exists a space tail rest,
           response = a ++ lit "CHANGES_SUMMARY:" ++ space
                        ++ changesSummary r ++ tail
           /\ forallb isSpace space = true
           /\ summaryEnd tail rest)
        /\ (forall c s, changesSummary r = c :: s -> isSpace c = false)
        /\ ~ occursIn (nl ++ nl) (changesSummary r)
        /\ (forall x, changesSummary r <> x ++ nl))
    /\ (~ occursIn (lit "CHANGES_SUMMARY:") response ->
        changesSummary r = lit "Code fixes applied" /\ confidence r = 60).
Proof.
  intros Hinv. rewrite autoFix_invoke, Hinv.
  eexists; split; [reflexivity|].
  rewrite <- changesSummaryPattern_matches.
  unfold extractFix; cbn [changesSummary confidence].
  destruct (jsMatch changesSummaryPattern response) as [cap|] eqn:E; split.
  - intros _. destruct (jsMatch_at _ _ _ E) as (a & t & rest & Hr & Hat).
    apply changesSummaryPattern_at in Hat
      as (space & body & tail & -> & Hspace & -> & Hend & Hlead & Hblank & Hlast).
    cbn [group1]. repeat split; auto.
    exists a, space, tail, rest. auto.
  - intros H. exfalso. apply H. discriminate.
  - intros H. congruence.
  - intros _. split; [reflexivity|].
    now destruct (jsMatch fixedCodePattern response).
Qed.

(** ** The helper, the workflow, and two edges *)

(** X10.  [validateSolanaProgram] finds a program valid exactly when the
    code has one of the two import lines and one of the two entry-point
    marks in it, and no "unwrap()". *)
Theorem validateSolanaProgram_valid_iff (code0 : JSString) :
  isValid (validateSolanaProgram code0) = true <->
  (occursIn (lit "use anchor_lang::prelude::*") code0
   \/ occursIn (lit "use solana_program::") code0)
  /\ (occursIn (lit "#[program]") code0 \/ occursIn (lit "entrypoint!") code0)
  /\ ~ occursIn (lit "unwrap()") code0.
Proof.
  rewrite <- includes_false_iff, <- !includes_iff.
  unfold validateSolanaProgram, pushIf.
  destruct (includes code0 (lit "use anchor_lang::prelude::*")),
           (includes code0 (lit "use solana_program::")),
           (includes code0 (lit "#[program]")),
           (includes code0 (lit "entrypoint!")),
           (includes code0 (lit "unwrap()"));
    cbn [negb andb app isValid List.length];
    (split; [intros H; try discriminate H; auto
            | intros (H1 & H2 & H3); try reflexivity; try discriminate H3;
              try (destruct H1; discriminate); try (destruct H2; discriminate)]).
Qed.





(** X12.  An empty answer is an answer, not a failure: [staticAnalysis]
    reports severity [Low] and no issue, [dynamicAnalysis] reports its
    three tests as not passed, and [autoFix] returns the empty text as the
    fixed code, with the placeholder summary and confidence 60. *)
Theorem steps_on_empty_answer
    (lowerNonAscii : UnicodeLower) (agent : Agent) :
  (forall a,
     invoke agent (staticPrompt a) = Normal [] ->
     staticAnalysis lowerNonAscii agent a
     = Normal {| issues := []; severity := Low; issueCount := 0 |})
  /\ (forall b,
        invoke agent (dynamicPrompt b) = Normal [] ->
        exists r,
          dynamicAnalysis agent b = Normal r
          /\ simulationReport r = []
          /\ map passed (testResults r) = [false; false; false])
  /\ (forall c,
        invoke agent (fixPrompt c) = Normal [] ->
        autoFix agent c
        = Normal {| fixedCode := [];
                    changesSummary := lit "Code fixes applied";
                    confidence := 60 |}).
Proof.
  repeat split.
  - intros a H. now rewrite staticAnalysis_invoke, H.
  - intros b H. rewrite dynamicAnalysis_invoke, H.
    eexists; split; [reflexivity|]. now split.
  - intros c H. now rewrite autoFix_invoke, H.
Qed.

Lemma occursIn_self (s : JSString) : occursIn s s.
Proof. exists [], []. now rewrite app_nil_r. Qed.

Lemma occursIn_app_left (kw x y : JSString) :
  occursIn kw x -> occursIn kw (x ++ y).
Proof. intros (a & b & ->). exists a, (b ++ y). now rewrite <- !app_assoc. Qed.

Lemma occursIn_app_right (kw x y : JSString) :
  occursIn kw y -> occursIn kw (x ++ y).
Proof. intros (a & b & ->). exists (x ++ a), b. now rewrite <- !app_assoc. Qed.

(** A joined text has every part in it. *)
Lemma occursIn_join (sep p : JSString) (parts : list JSString) :
  In p parts -> occursIn p (join sep parts).
Proof.
  induction parts as [|q parts IH]; [intros []|].
  intros [-> | Hin].
  - destruct parts as [|q' parts]; cbn [join].
    + apply occursIn_self.
    + apply occursIn_app_left, occursIn_self.
  - destruct parts as [|q' parts]; [destruct Hin|].
    cbn [join]. apply occursIn_app_right, occursIn_app_right. now apply IH.
Qed.

(** X13.  The prompt of [autoFix] reports every test result it is
    given: for each of them it has the line with the name of the test,
    "PASSED" or "FAILED" according to its flag, and its details. *)
Theorem fixPrompt_reports_every_test (inputData : StageCInput) (t : TestResult) :
  In t (testResultsC inputData) ->
  occursIn
    (lit "- " ++ testCase t ++ lit ": "
       ++ (if passed t then lit "PASSED" else lit "FAILED")
       ++ lit " (" ++ details t ++ lit ")")
    (fixPrompt inputData).
Proof.
  intros Hin. unfold fixPrompt.
  do 7 apply occursIn_app_right. apply occursIn_app_left.
  apply occursIn_join. change (In (testResultLine t)
                                  (map testResultLine (testResultsC inputData))).
  now apply in_map.
Qed.

(** ** Answers in the requested format are extracted as they are *)

Lemma starGreedy_exact (cls : N -> bool) (run rest : JSString)
    (k : JSString -> option MatchState) (m : MatchState) :
  forallb cls run = true ->
  (forall c rest', rest = c :: rest' -> cls c = false) ->
  k rest = Some m ->
  starGreedy cls (run ++ rest) k = Some m.
Proof.
  intros Hrun Hend Hk; induction run as [|c run IH]; simpl in *.
  - destruct rest as [|c rest]; simpl; [assumption|].
    now rewrite (Hend c rest eq_refl).
  - apply andb_true_iff in Hrun as [-> Hrun]. now rewrite (IH Hrun).
Qed.

Lemma starLazy_exact (cls : N -> bool) (run rest : JSString)
    (k : JSString -> option MatchState) (m : MatchState) :
  forallb cls run = true ->
  (forall r1 r2, run = r1 ++ r2 -> r2 <> [] -> k (r2 ++ rest) = None) ->
  k rest = Some m ->
  starLazy cls (run ++ rest) k = Some m.
Proof.
  intros Hrun Hmin Hk; induction run as [|c run IH].
  - simpl. destruct rest; simpl; now rewrite Hk.
  - cbn [forallb] in Hrun. apply andb_true_iff in Hrun as [Hc Hrun].
    assert (Hne : c :: run <> []) by discriminate.
    pose proof (Hmin [] (c :: run) eq_refl Hne) as H0. cbn [app] in H0.
    cbn [app starLazy]. rewrite H0, Hc.
    apply IH; [assumption|].
    intros r1 r2 -> Hr2. now apply (Hmin (c :: r1) r2).
Qed.

(** [s.match(r)] takes the match at the least index. *)
Lemma jsMatch_leftmost (r : Regex) (pre t rest : JSString) (cap : Captured) :
  (forall a1 a2, pre = a1 ++ a2 -> a2 <> [] -> matchAt false r (a2 ++ t) = None) ->
  matchAt false r t = Some (rest, cap) ->
  jsMatch r (pre ++ t) = Some cap.
Proof.
  intros Hpre Ht; induction pre as [|c pre IH].
  - simpl. destruct t; cbn [jsMatch]; now rewrite Ht.
  - cbn [app jsMatch].
    assert (Hne : c :: pre <> []) by discriminate.
    pose proof (Hpre [] (c :: pre) eq_refl Hne) as H0. cbn [app] in H0.
    rewrite H0. apply IH. intros a1 a2 -> Ha2. now apply (Hpre (c :: a1) a2).
Qed.

(** When a marker does not occur before the index [length pre], it is at
    the front of no suffix that starts before that index. *)
Lemma marker_not_before (stem : JSString) (last : N) (pre a1 a2 x : JSString) :
  ~ occursIn (stem ++ [last]) (pre ++ stem) ->
  pre = a1 ++ a2 -> a2 <> [] ->
  matchChars false (stem ++ [last]) (a2 ++ (stem ++ [last]) ++ x) = None.
Proof.
  intros Hno -> Ha2.
  destruct (matchChars false (stem ++ [last]) (a2 ++ (stem ++ [last]) ++ x))
    as [y|] eqn:E; [|reflexivity].
  exfalso. apply matchChars_iff in E.
  rewrite <- (app_assoc stem), app_assoc in E.
  apply app_eq_app in E as [l [[E1 E2] | [E1 E2]]].
  - apply Hno. exists a1, l. rewrite <- app_assoc, E1. reflexivity.
  - pose proof (f_equal (@List.length N) E1) as Hlen.
    rewrite !length_app in Hlen.
    destruct a2 as [|c a2]; [congruence|]. simpl in Hlen.
    assert (l = []) by (destruct l; [reflexivity | simpl in Hlen; lia]).
    subst l. rewrite app_nil_r in E1.
    apply Hno. exists a1, []. rewrite <- app_assoc, app_nil_r. now rewrite E1.
Qed.

Lemma closingFence_not_inside (body r1 r2 post : JSString) :
  ~ occursIn (nl ++ lit "```") body ->
  body = r1 ++ r2 -> r2 <> [] ->
  matchChars false (nl ++ lit "```") (r2 ++ (nl ++ lit "```") ++ post) = None.
Proof.
  intros Hno -> Hr2.
  destruct (matchChars false (nl ++ lit "```") (r2 ++ (nl ++ lit "```") ++ post))
    as [y|] eqn:E; [|reflexivity].
  exfalso. apply matchChars_iff in E.
  destruct r2 as [|x1 [|x2 [|x3 [|x4 r2]]]]; try congruence;
    try (cbn in E; discriminate E).
  cbn in E. injection E as -> -> -> -> _.
  apply Hno. now exists r1, r2.
Qed.

(** The match of the "FIXED_CODE:" pattern at the front of a block in
    the requested format. *)
Lemma fixedCodePattern_exact (space body post : JSString) :
  forallb isSpace space = true ->
  ~ occursIn (nl ++ lit "```") body ->
  matchAt false fixedCodePattern
    (lit "FIXED_CODE:" ++ space ++ (lit "```rust" ++ nl)
       ++ body ++ (nl ++ lit "```") ++ post)
  = Some (post, Some body).
Proof.
  intros Hspace Hno. unfold matchAt, fixedCodePattern. cbn [matchRe].
  match goal with |- context [matchChars false ?p (?p ++ ?rest)] =>
    replace (matchChars false p (p ++ rest)) with (Some rest)
      by (symmetry; now apply matchChars_iff) end.
  apply starGreedy_exact; [assumption | |].
  { intros c rest' H. cbn in H. now injection H as <- _. }
  match goal with |- context [matchChars false ?p (?p ++ ?rest)] =>
    replace (matchChars false p (p ++ rest)) with (Some rest)
      by (symmetry; now apply matchChars_iff) end.
  apply starLazy_exact; [apply allUnits | |].
  - intros r1 r2 Hb Hr2.
    now rewrite (closingFence_not_inside body r1 r2 post Hno Hb Hr2).
  - match goal with |- context [matchChars false ?p (?p ++ ?rest)] =>
      replace (matchChars false p (p ++ rest)) with (Some rest)
        by (symmetry; now apply matchChars_iff) end.
    now rewrite consumed_app.
Qed.

(** X14.  An answer with a block in the requested format gives back the
    code of the block: when the answer has "FIXED_CODE:" (for the first
    time), white space, the fence "```rust", the code and the closing
    fence, and the code has no closing fence inside it, [fixedCode] is
    that code, whatever stands before and after the block. *)
Theorem autoFix_returns_formatted_code
    (agent : Agent) (inputData : StageCInput)
    (pre space body post : JSString) :
  invoke agent (fixPrompt inputData)
    = Normal (pre ++ lit "FIXED_CODE:" ++ space ++ (lit "```rust" ++ nl)
                ++ body ++ (nl ++ lit "```") ++ post) ->
  ~ occursIn (lit "FIXED_CODE:") (pre ++ lit "FIXED_CODE") ->
  forallb isSpace space = true ->
  ~ occursIn (nl ++ lit "```") body ->
  exists r, autoFix agent inputData = Normal r /\ fixedCode r = body.
Proof.
  intros Hinv Hfirst Hspace Hno. rewrite autoFix_invoke, Hinv.
  eexists; split; [reflexivity|].
  unfold extractFix; cbn [fixedCode].
  rewrite (jsMatch_leftmost fixedCodePattern pre _ post (Some body)).
  - reflexivity.
  - intros a1 a2 Hpre Ha2. unfold matchAt, fixedCodePattern. cbn [matchRe].
    change (lit "FIXED_CODE:") with (lit "FIXED_CODE" ++ [58]) in *.
    now rewrite (marker_not_before _ _ pre a1 a2 _ Hfirst Hpre Ha2).
  - now apply fixedCodePattern_exact.
Qed.

Lemma summaryTail_end (start tail rest : JSString) :
  summaryEnd tail rest ->
  summaryTail start tail = Some (rest, Some (consumed start tail)).
Proof.
  unfold summaryTail. cbn [matchRe]. intros [-> | [[-> ->] | [-> ->]]].
  - replace (matchChars false (nl ++ nl) (nl ++ nl ++ rest)) with (Some rest)
      by (symmetry; apply matchChars_iff; now rewrite <- app_assoc).
    reflexivity.
  - reflexivity.
  - reflexivity.
Qed.

Lemma summaryTail_not_inside (start body r1 r2 tail : JSString) :
  ~ occursIn (nl ++ nl) body ->
  (forall x, body <> x ++ nl) ->
  body = r1 ++ r2 -> r2 <> [] ->
  summaryTail start (r2 ++ tail) = None.
Proof.
  intros Hblank Hlast -> Hr2.
  destruct (summaryTail start (r2 ++ tail)) as [[rest cap]|] eqn:E;
    [|reflexivity].
  exfalso. apply summaryTail_some in E as [_ [E | [[E _] | [E _]]]].
  - destruct r2 as [|x [|y r2]]; [congruence | |].
    + cbn in E. injection E as -> _. now apply (Hlast r1).
    + cbn in E. injection E as -> -> _. apply Hblank. now exists r1, r2.
  - destruct r2 as [|x [|y r2]]; [congruence | |].
    + cbn in E. injection E as -> _. now apply (Hlast r1).
    + cbn in E. discriminate E.
  - destruct r2; [congruence | discriminate E].
Qed.

(** The match of the "CHANGES_SUMMARY:" pattern at the front of a
    summary in the requested format. *)
Lemma changesSummaryPattern_exact (space body tail rest : JSString) :
  forallb isSpace space = true ->
  summaryEnd tail rest ->
  body <> [] ->
  (forall c s, body = c :: s -> isSpace c = false) ->
  ~ occursIn (nl ++ nl) body ->
  (forall x, body <> x ++ nl) ->
  matchAt false changesSummaryPattern
    (lit "CHANGES_SUMMARY:" ++ space ++ body ++ tail)
  = Some (rest, Some body).
Proof.
  intros Hspace Hend Hne Hlead Hblank Hlast.
  unfold matchAt, changesSummaryPattern. cbn [matchRe].
  match goal with |- context [matchChars false ?p (?p ++ ?rest)] =>
    replace (matchChars false p (p ++ rest)) with (Some rest)
      by (symmetry; now apply matchChars_iff) end.
  change (starGreedy isSpace (space ++ body ++ tail)
            (fun t2 => starLazy anyUnit t2 (summaryTail t2))
          = Some (rest, Some body)).
  apply starGreedy_exact; [assumption | |].
  { intros c rest' H. destruct body as [|c' s]; [congruence|].
    cbn in H. injection H as <- _. now apply (Hlead c' s). }
  apply starLazy_exact; [apply allUnits | |].
  - intros r1 r2 Hb Hr2.
    now apply (summaryTail_not_inside _ body r1 r2 tail).
  - rewrite (summaryTail_end _ tail rest Hend). now rewrite consumed_app.
Qed.

(** X15.  An answer with a summary in the requested format gives back
    the summary: when the answer has "CHANGES_SUMMARY:" (for the first
    time), white space, and a text that does not begin with white space,
    has no blank line in it and does not end with a line break, followed
    by a blank line, by a last line break or by nothing, [changesSummary]
    is that text. *)
Theorem autoFix_returns_formatted_summary
    (agent : Agent) (inputData : StageCInput)
    (pre space body tail rest : JSString) :
  invoke agent (fixPrompt inputData)
    = Normal (pre ++ lit "CHANGES_SUMMARY:" ++ space ++ body ++ tail) ->
  ~ occursIn (lit "CHANGES_SUMMARY:") (pre ++ lit "CHANGES_SUMMARY") ->
  forallb isSpace space = true ->
  summaryEnd tail rest ->
  body <> [] ->
  (forall c s, body = c :: s -> isSpace c = false) ->
  ~ occursIn (nl ++ nl) body ->
  (forall x, body <> x ++ nl) ->
  exists r, autoFix agent inputData = Normal r /\ changesSummary r = body.
Proof.
  intros Hinv Hfirst Hspace Hend Hne Hlead Hblank Hlast.
  rewrite autoFix_invoke, Hinv.
  eexists; split; [reflexivity|].
  unfold extractFix; cbn [changesSummary].
  rewrite (jsMatch_leftmost changesSummaryPattern pre _ rest (Some body)).
  - reflexivity.
  - intros a1 a2 Hpre Ha2. unfold matchAt, changesSummaryPattern. cbn [matchRe].
    change (lit "CHANGES_SUMMARY:") with (lit "CHANGES_SUMMARY" ++ [58]) in *.
    now rewrite (marker_not_before _ _ pre a1 a2 _ Hfirst Hpre Ha2).
  - now apply changesSummaryPattern_exact.
Qed.

(** ** A bound on the issue count *)

(** A match of a marker takes at least two code units. *)
Lemma issueMarkerPattern_consumes (s rest : JSString) (cap : Captured) :
  matchAt true issueMarkerPattern s = Some (rest, cap) ->
  (List.length rest + 2 <= List.length s)%nat.
Proof.
  unfold matchAt, issueMarkerPattern. cbn [matchRe]. fold alarmEmoji.
  destruct (matchChars true alarmEmoji s) as [r1|] eqn:E1.
  { apply (matchChars_high _ _ _ high_alarmEmoji) in E1. intros [= <- _].
    subst s. rewrite length_app. cbn. lia. }
  destruct (matchChars true (lit "vulnerability") s) as [r2|] eqn:E2.
  { apply (matchChars_letters _ _ _ letters_vulnerability) in E2 as (m & -> & Hm).
    intros [= <- _]. rewrite length_app.
    apply (f_equal (@List.length N)) in Hm. rewrite length_map in Hm.
    cbn in Hm. lia. }
  destruct (matchChars true (lit "issue") s) as [r3|] eqn:E3; [|discriminate].
  apply (matchChars_letters _ _ _ letters_issue) in E3 as (m & -> & Hm).
  intros [= <- _]. rewrite length_app.
  apply (f_equal (@List.length N)) in Hm. rewrite length_map in Hm.
  cbn in Hm. lia.
Qed.

Lemma countMatches_issue_bound (s : JSString) :
  forall skip,
    (skip <= List.length s)%nat ->
    2 * countMatches true issueMarkerPattern skip s + N.of_nat skip
    <= N.of_nat (List.length s).
Proof.
  induction s as [|c s IH]; intros skip Hskip.
  - cbn [List.length] in *. cbn. destruct skip; [cbn; lia | lia].
  - cbn [countMatches]. destruct skip as [|n].
    + destruct (matchAt true issueMarkerPattern (c :: s)) as [[rest cap]|] eqn:E.
      * apply issueMarkerPattern_consumes in E. cbn [List.length] in *.
        specialize (IH (S (List.length s) - List.length rest - 1)%nat).
        lia.
      * specialize (IH 0%nat). cbn [List.length]. lia.
    + specialize (IH n). cbn [List.length] in *. lia.
Qed.

(** X16.  The issue count of a successful run is at most half the
    length of the answer: the matches that are counted do not overlap,
    and each marker takes two code units at least. *)
Theorem issueCount_at_most_half_length
    (lowerNonAscii : UnicodeLower) (agent : Agent)
    (inputData : AuditRequest) (text : JSString) :
  invoke agent (staticPrompt inputData) = Normal text ->
  exists r,
    staticAnalysis lowerNonAscii agent inputData = Normal r
    /\ 2 * issueCount r <= jsLength text.
Proof.
  intros Hinv. rewrite staticAnalysis_invoke, Hinv.
  eexists; split; [reflexivity|]. cbn [issueCount]. unfold jsLength.
  pose proof (countMatches_issue_bound text 0 (PeanoNat.Nat.le_0_l _)) as H.
  lia.
Qed.

(** * Concrete runs of the further properties *)

(** X2 at one answer cut in two ways. *)
Lemma steps_ignore_fragment_boundaries_witness :
  List.concat [lit "No "; lit "findings."] = List.concat [lit "No fin"; lit "dings."]
  /\ staticAnalysis lowerAsciiOnly (answering [lit "No "; lit "findings."]) sampleRequest
     = staticAnalysis lowerAsciiOnly (answering [lit "No fin"; lit "dings."]) sampleRequest
  /\ dynamicAnalysis (answering [lit "No "; lit "findings."]) sampleStageB
     = dynamicAnalysis (answering [lit "No fin"; lit "dings."]) sampleStageB
  /\ autoFix (answering [lit "No "; lit "findings."]) sampleStageC
     = autoFix (answering [lit "No fin"; lit "dings."]) sampleStageC.
Proof.
  split; [reflexivity|].
  destruct (steps_ignore_fragment_boundaries lowerAsciiOnly
              (answering [lit "No "; lit "findings."])
              (answering [lit "No fin"; lit "dings."])
              [lit "No "; lit "findings."] [lit "No fin"; lit "dings."] eq_refl)
    as (HA & HB & HC).
  split; [exact (HA sampleRequest eq_refl eq_refl)|].
  split; [exact (HB sampleStageB eq_refl eq_refl)
         | exact (HC sampleStageC eq_refl eq_refl)].
Defined.

(** X3 at a stream that breaks after a complete formatted answer. *)
Lemma broken_stream_discards_fragments_witness :
  breaking formattedAnswer quotaError (userMessage (fixPrompt sampleStageC))
    = Normal {| fragments := formattedAnswer; failure := Some quotaError |}
  /\ autoFix (breaking formattedAnswer quotaError) sampleStageC
     = Normal {| fixedCode := codeC sampleStageC;
                 changesSummary := lit "Auto-fix failed: " ++ message quotaError;
                 confidence := 0 |}.
Proof.
  split; [reflexivity|].
  exact (proj2 (proj2 (broken_stream_discards_fragments lowerAsciiOnly
                         (breaking formattedAnswer quotaError)
                         formattedAnswer quotaError))
           sampleStageC eq_refl).
Defined.

Lemma ascii_high_risk : Forall (fun c => c < 128) (lit "High risk").
Proof. repeat (constructor; [reflexivity|]). constructor. Qed.

(** X4 at an ASCII answer, with a table that maps every unit above 127
    to nothing. *)
Lemma staticAnalysis_severity_ascii_witness :
  invoke (answering [lit "High risk"]) (staticPrompt sampleRequest)
    = Normal (lit "High risk")
  /\ Forall (fun c => c < 128) (lit "High risk")
  /\ toLowerCase (fun _ _ _ => []) (lit "High risk") = map asciiLower (lit "High risk")
  /\ exists r,
       staticAnalysis (fun _ _ _ => []) (answering [lit "High risk"]) sampleRequest
       = Normal r
       /\ severity r = severityByKeyword (lit "High risk").
Proof.
  split; [reflexivity|]. split; [exact ascii_high_risk|].
  exact (staticAnalysis_severity_ascii (fun _ _ _ => [])
           (answering [lit "High risk"]) sampleRequest (lit "High risk")
           eq_refl ascii_high_risk).
Defined.

(** X5 at a text of severity [Medium] inside one of severity [High]. *)
Lemma severity_never_lowered_by_more_text_witness :
  keepsNonAscii lowerAsciiOnly
  /\ severityRank (classifySeverity lowerAsciiOnly (lit "medium")) = 1
  /\ severityRank (classifySeverity lowerAsciiOnly
                     (lit "Not " ++ lit "medium" ++ lit ": HIGH")) = 2
  /\ severityRank (classifySeverity lowerAsciiOnly (lit "medium"))
     <= severityRank (classifySeverity lowerAsciiOnly
                        (lit "Not " ++ lit "medium" ++ lit ": HIGH")).
Proof.
  split; [exact lowerAsciiOnly_keeps|]. split; [reflexivity|].
  split; [reflexivity|].
  exact (severity_never_lowered_by_more_text lowerAsciiOnly
           (lit "Not ") (lit "medium") (lit ": HIGH") lowerAsciiOnly_keeps).
Defined.

(** X6 at an answer without a marker. *)
Lemma issueCount_zero_iff_no_marker_witness :
  invoke (answering [lit "All checks are in place."]) (staticPrompt sampleRequest)
    = Normal (lit "All checks are in place.")
  /\ exists r,
       staticAnalysis lowerAsciiOnly (answering [lit "All checks are in place."])
         sampleRequest = Normal r
       /\ (issueCount r = 0 <->
           ~ occursIn alarmEmoji (lit "All checks are in place.")
           /\ ~ occursIgnoringCase (lit "vulnerability") (lit "All checks are in place.")
           /\ ~ occursIgnoringCase (lit "issue") (lit "All checks are in place.")).
Proof.
  split; [reflexivity|].
  exact (issueCount_zero_iff_no_marker lowerAsciiOnly
           (answering [lit "All checks are in place."]) sampleRequest
           (lit "All checks are in place.") eq_refl).
Defined.

(** X7 at an answer in the requested format. *)
Lemma autoFix_confidence_by_format_witness :
  invoke (answering formattedAnswer) (fixPrompt sampleStageC)
    = Normal (List.concat formattedAnswer)
  /\ exists r,
       autoFix (answering formattedAnswer) sampleStageC = Normal r
       /\ (confidence r = 85 <->
           (exists a space body b,
              List.concat formattedAnswer
              = a ++ lit "FIXED_CODE:" ++ space ++ (lit "```rust" ++ nl)
                  ++ body ++ (nl ++ lit "```") ++ b
              /\ forallb isSpace space = true)
           /\ occursIn (lit "CHANGES_SUMMARY:") (List.concat formattedAnswer)).
Proof.
  split; [reflexivity|].
  exact (autoFix_confidence_by_format (answering formattedAnswer) sampleStageC
           (List.concat formattedAnswer) eq_refl).
Defined.

Lemma formattedAnswer_matches :
  jsMatch fixedCodePattern (List.concat formattedAnswer) <> None.
Proof. vm_compute. discriminate. Qed.

(** X8 at an answer in the requested format. *)
Lemma autoFix_extracts_up_to_first_fence_witness :
  invoke (answering formattedAnswer) (fixPrompt sampleStageC)
    = Normal (List.concat formattedAnswer)
  /\ jsMatch fixedCodePattern (List.concat formattedAnswer) <> None
  /\ exists r a space b,
       autoFix (answering formattedAnswer) sampleStageC = Normal r
       /\ List.concat formattedAnswer
          = a ++ lit "FIXED_CODE:" ++ space ++ (lit "```rust" ++ nl)
              ++ fixedCode r ++ (nl ++ lit "```") ++ b
       /\ forallb isSpace space = true
       /\ ~ occursIn (nl ++ lit "```") (fixedCode r).
Proof.
  split; [reflexivity|]. split; [exact formattedAnswer_matches|].
  exact (autoFix_extracts_up_to_first_fence (answering formattedAnswer)
           sampleStageC (List.concat formattedAnswer) eq_refl
           formattedAnswer_matches).
Defined.

(** X9 at an answer in the requested format. *)
Lemma autoFix_summary_extraction_witness :
  invoke (answering formattedAnswer) (fixPrompt sampleStageC)
    = Normal (List.concat formattedAnswer)
  /\ occursIn (lit "CHANGES_SUMMARY:") (List.concat formattedAnswer)
  /\ exists r,
       autoFix (answering formattedAnswer) sampleStageC = Normal r
       /\ (forall c s, changesSummary r = c :: s -> isSpace c = false)
       /\ ~ occursIn (nl ++ nl) (changesSummary r)
       /\ (forall x, changesSummary r <> x ++ nl).
Proof.
  split; [reflexivity|].
  assert (Hocc : occursIn (lit "CHANGES_SUMMARY:") (List.concat formattedAnswer))
    by (apply includes_iff; reflexivity).
  split; [exact Hocc|].
  destruct (autoFix_summary_extraction (answering formattedAnswer) sampleStageC
              (List.concat formattedAnswer) eq_refl) as (r & Hr & Hyes & _).
  exists r. split; [exact Hr|]. exact (proj2 (Hyes Hocc)).
Defined.


(** X12 at an agent that answers with no fragment at all. *)
Lemma steps_on_empty_answer_witness :
  invoke (answering []) (fixPrompt sampleStageC) = Normal []
  /\ autoFix (answering []) sampleStageC
     = Normal {| fixedCode := [];
                 changesSummary := lit "Code fixes applied";
                 confidence := 60 |}.
Proof.
  split; [reflexivity|].
  exact (proj2 (proj2 (steps_on_empty_answer lowerAsciiOnly (answering [])))
           sampleStageC eq_refl).
Defined.

(** X13 at the third test of a report that has its phrase. *)
Lemma fixPrompt_reports_every_test_witness :
  In {| testCase := lit "Integer Overflow Test";
        passed := true;
        details := lit "Testing for integer overflow vulnerabilities" |}
     (testResultsC testedStageC)
  /\ occursIn
       (lit "- Integer Overflow Test: PASSED (Testing for integer overflow vulnerabilities)")
       (fixPrompt testedStageC).
Proof.
  assert (Hin : In {| testCase := lit "Integer Overflow Test";
                      passed := true;
                      details := lit "Testing for integer overflow vulnerabilities" |}
                   (testResultsC testedStageC))
    by (right; right; left; reflexivity).
  split; [exact Hin|].
  exact (fixPrompt_reports_every_test testedStageC _ Hin).
Defined.

Lemma answerWithPreamble_first :
  ~ occursIn (lit "FIXED_CODE:") ((lit "Here you go:" ++ nl) ++ lit "FIXED_CODE").
Proof. apply includes_false_iff. reflexivity. Qed.

Lemma sample_code_no_fence :
  ~ occursIn (nl ++ lit "```") (lit "pub fn update() {}").
Proof. apply includes_false_iff. reflexivity. Qed.

(** X14 at an answer with a preamble. *)
Lemma autoFix_returns_formatted_code_witness :
  invoke (answering [answerWithPreamble]) (fixPrompt sampleStageC)
    = Normal answerWithPreamble
  /\ exists r,
       autoFix (answering [answerWithPreamble]) sampleStageC = Normal r
       /\ fixedCode r = lit "pub fn update() {}".
Proof.
  split; [reflexivity|].
  exact (autoFix_returns_formatted_code (answering [answerWithPreamble])
           sampleStageC (lit "Here you go:" ++ nl) nl (lit "pub fn update() {}")
           (nl ++ nl ++ lit "CHANGES_SUMMARY: none")
           eq_refl answerWithPreamble_first eq_refl sample_code_no_fence).
Defined.

Lemma summaryAnswer_first :
  ~ occursIn (lit "CHANGES_SUMMARY:") ((lit "Done." ++ nl) ++ lit "CHANGES_SUMMARY").
Proof. apply includes_false_iff. reflexivity. Qed.

Lemma sample_summary_shape :
  lit "- added signer check" <> []
  /\ (forall c s, lit "- added signer check" = c :: s -> isSpace c = false)
  /\ ~ occursIn (nl ++ nl) (lit "- added signer check")
  /\ (forall x, lit "- added signer check" <> x ++ nl).
Proof.
  split; [discriminate|]. split.
  { intros c s H. cbn in H. now injection H as <- _. }
  split; [apply includes_false_iff; reflexivity|].
  intros x H. apply (f_equal (@rev N)) in H. rewrite rev_app_distr in H.
  cbn in H. discriminate H.
Qed.

(** X15 at an answer that ends with the summary and a line break. *)
Lemma autoFix_returns_formatted_summary_witness :
  invoke (answering [summaryAnswer]) (fixPrompt sampleStageC) = Normal summaryAnswer
  /\ summaryEnd nl []
  /\ exists r,
       autoFix (answering [summaryAnswer]) sampleStageC = Normal r
       /\ changesSummary r = lit "- added signer check".
Proof.
  split; [reflexivity|].
  assert (Hend : summaryEnd nl []) by (right; left; split; reflexivity).
  split; [exact Hend|].
  exact (autoFix_returns_formatted_summary (answering [summaryAnswer])
           sampleStageC (lit "Done." ++ nl) [32] (lit "- added signer check") nl []
           eq_refl summaryAnswer_first eq_refl Hend
           (proj1 sample_summary_shape)
           (proj1 (proj2 sample_summary_shape))
           (proj1 (proj2 (proj2 sample_summary_shape)))
           (proj2 (proj2 (proj2 sample_summary_shape)))).
Defined.

(** X16 at an answer made of two markers. *)
Lemma issueCount_at_most_half_length_witness :
  invoke (answering [lit "issue issue"]) (staticPrompt sampleRequest)
    = Normal (lit "issue issue")
  /\ exists r,
       staticAnalysis lowerAsciiOnly (answering [lit "issue issue"]) sampleRequest
       = Normal r
       /\ 2 * issueCount r <= jsLength (lit "issue issue").
Proof.
  split; [reflexivity|].
  exact (issueCount_at_most_half_length lowerAsciiOnly
           (answering [lit "issue issue"]) sampleRequest (lit "issue issue") eq_refl).
Defined.

Example issueCount_two_markers :
  countMatches true issueMarkerPattern 0 (lit "issue issue") = 2.
Proof. reflexivity. Qed.

Example summary_stops_at_blank_line :
  autoFix (answering [lit "CHANGES_SUMMARY:" ++ nl ++ lit "- a" ++ nl ++ lit "- b"
                        ++ nl ++ nl ++ lit "Thanks."]) sampleStageC
  = Normal {| fixedCode := lit "CHANGES_SUMMARY:" ++ nl ++ lit "- a" ++ nl ++ lit "- b"
                             ++ nl ++ nl ++ lit "Thanks.";
              changesSummary := lit "- a" ++ nl ++ lit "- b";
              confidence := 60 |}.
Proof. reflexivity. Qed.
